(** * Picture-to-ANSI: a shallow embedding of [pic_to_ansi.py]

    The development follows the source file top to bottom: the colour-space
    converter ([srgb_to_linear], [linear_to_srgb]), the resampler
    ([resize_with_optimal_filter]), the filter chain, the cell encoder
    ([ansi_fg_bg], [ansi_single]), the output-format helpers and the entry
    points [image_to_verilog_display] and [main].

    Conventions.
    - A Python [str] is represented by its UTF-8 encoding as a Rocq [string]
      (the program writes its files with [encoding="utf-8"]).  Every
      character the program inspects (backslash, double quote, dot, slash,
      the letters of the known extensions) is ASCII, and an ASCII byte never
      occurs inside a multi-byte UTF-8 sequence, so searching and replacing
      those characters byte-wise agrees with doing it code-point-wise.
    - A Python [int] is a [Z]; a Python [float] is an IEEE binary64 value and
      a numpy [float32] an IEEE binary32 value, both as [spec_float] with the
      operations of the standard library's [SpecFloat] (round to nearest,
      ties to even).
    - Exceptions are values of type [exn]; fallible code returns [exn + A].
    - Calls into the imaging library and output actions are recorded as a
      trace of [event]s, so that "this stage was skipped" and "nothing was
      written" are statements about the trace. *)

From Stdlib Require Import ZArith List Bool Lia String Ascii DecimalString.
From Stdlib Require Import QArith Qround Qpower Lqa.
From Stdlib Require Import Floats.SpecFloat.
From Stdlib Require Import Sorted.
Import ListNotations.

Open Scope string_scope.
Open Scope Z_scope.

(** ** Python strings *)

Module PyStr.

Definition chr (n : nat) : string := String (ascii_of_nat n) EmptyString.

(** [str(n)] for an [int]. *)
Definition of_int (n : Z) : string := NilZero.string_of_int (Z.to_int n).

(** [len(s)] as an [int]. *)
Definition len (s : string) : Z := Z.of_nat (String.length s).

(** [s[i:]] and [s[:i]] for [0 <= i]. *)
Definition drop (i : Z) (s : string) : string :=
  String.substring (Z.to_nat i) (String.length s - Z.to_nat i) s.

Definition take (i : Z) (s : string) : string :=
  String.substring 0 (Z.to_nat i) s.

(** [s[i:i+1]]: the empty string when [i] is out of range. *)
Definition at1 (i : Z) (s : string) : string :=
  String.substring (Z.to_nat i) 1 s.

(** [s.rfind(c)] for a one-character [c], scanning from offset [i]:
    the highest index holding [c], or [-1]. *)
Fixpoint rfind_from (c : ascii) (s : string) (i : Z) : Z :=
  match s with
  | EmptyString => -1
  | String a s' =>
      let r := rfind_from c s' (i + 1) in
      if 0 <=? r then r else if Ascii.eqb a c then i else -1
  end.

Definition rfind (c : ascii) (s : string) : Z := rfind_from c s 0.

(** [s.replace(old, new)] for a one-character [old]: every occurrence,
    left to right. *)
Fixpoint replace (old : ascii) (new : string) (s : string) : string :=
  match s with
  | EmptyString => EmptyString
  | String a s' =>
      if Ascii.eqb a old then new ++ replace old new s'
      else String a (replace old new s')
  end.

Definition lower_ascii (a : ascii) : ascii :=
  let n := nat_of_ascii a in
  if ((65 <=? n) && (n <=? 90))%nat then ascii_of_nat (n + 32) else a.

(** [s.lower()].  Non-ASCII bytes are left alone; no non-ASCII code point
    lowers to one of the ASCII characters the program compares against. *)
Fixpoint lower (s : string) : string :=
  match s with
  | EmptyString => EmptyString
  | String a s' => String (lower_ascii a) (lower s')
  end.

(** Joining [parts] with the empty separator. *)
Definition join (parts : list string) : string := String.concat EmptyString parts.

(** Truthiness of an optional string: [None] and the empty string are falsy. *)
Definition truthy (s : option string) : bool :=
  match s with
  | Some (String _ _) => true
  | _ => false
  end.

End PyStr.

(** ** [os.path] (POSIX flavour) *)

Module OsPath.

(** The scan of [genericpath._splitext] that skips the leading dots of the
    file name: [n] positions starting at [i] are inspected; the result is
    [true] as soon as one of them is not the extension separator. *)
Fixpoint has_non_dot (extsep : ascii) (p : string) (i : Z) (n : nat) : bool :=
  match n with
  | O => false
  | S n' =>
      if negb (String.eqb (PyStr.at1 i p) (String extsep EmptyString))
      then true
      else has_non_dot extsep p (i + 1) n'
  end.

Definition _splitext (p : string) (sep : ascii) (altsep : option ascii)
  (extsep : ascii) : string * string :=
  let sepIndex := PyStr.rfind sep p in
  let sepIndex :=
    match altsep with
    | Some a => Z.max sepIndex (PyStr.rfind a p)
    | None => sepIndex
    end in
  let dotIndex := PyStr.rfind extsep p in
  if (sepIndex <? dotIndex)
     && has_non_dot extsep p (sepIndex + 1) (Z.to_nat (dotIndex - (sepIndex + 1)))
  then (PyStr.take dotIndex p, PyStr.drop dotIndex p)
  else (p, EmptyString).

Definition splitext (p : string) : string * string :=
  _splitext p "/"%char None "."%char.

Definition basename (p : string) : string :=
  PyStr.drop (PyStr.rfind "/"%char p + 1) p.

End OsPath.

(** ** Floating point *)

(** Python [float]: IEEE binary64. *)
Module F64.
Definition prec : Z := 53.
Definition emax : Z := 1024.
Definition valid (x : spec_float) : bool := valid_binary prec emax x.
Definition of_Z (n : Z) : spec_float := binary_normalize prec emax n 0 false.
Definition add := SFadd prec emax.
Definition sub := SFsub prec emax.
Definition mul := SFmul prec emax.
Definition div := SFdiv prec emax.
(** The literal whose decimal expansion is [num / den], for integers that a
    binary64 holds exactly: the nearest binary64, which is what the Python
    parser produces. *)
Definition lit (num den : Z) : spec_float := div (of_Z num) (of_Z den).
Definition one : spec_float := of_Z 1.
Definition is_zero (x : spec_float) : bool :=
  match x with S754_zero _ => true | _ => false end.
(** [x != y] on floats: true when unordered. *)
Definition neqb (x y : spec_float) : bool := negb (SFeqb x y).
End F64.

(** numpy [float32]: IEEE binary32. *)
Module F32.
Definition prec : Z := 24.
Definition emax : Z := 128.
Definition valid (x : spec_float) : bool := valid_binary prec emax x.
Definition of_Z (n : Z) : spec_float := binary_normalize prec emax n 0 false.
Definition add := SFadd prec emax.
Definition sub := SFsub prec emax.
Definition mul := SFmul prec emax.
Definition div := SFdiv prec emax.
Definition leb := SFleb.
Definition ltb := SFltb.
(** Conversion of a Python scalar to [float32] when it meets a [float32]
    array. *)
Definition of_f64 (x : spec_float) : spec_float :=
  match x with
  | S754_finite s m e =>
      binary_normalize prec emax (if s then Z.neg m else Z.pos m) e s
  | _ => x
  end.
Definition is_nan (x : spec_float) : bool :=
  match x with S754_nan => true | _ => false end.
(** [np.maximum] and [np.minimum]: a NaN operand gives NaN. *)
Definition maximum (x y : spec_float) : spec_float :=
  if is_nan x || is_nan y then S754_nan else if ltb x y then y else x.
Definition minimum (x y : spec_float) : spec_float :=
  if is_nan x || is_nan y then S754_nan else if ltb y x then y else x.
(** [np.clip(x, lo, hi)]. *)
Definition clip (x lo hi : spec_float) : spec_float :=
  minimum (maximum x lo) hi.
(** Truncation toward zero of a finite value. *)
Definition trunc (x : spec_float) : Z :=
  match x with
  | S754_finite s m e =>
      let a := match e with
               | Z.neg p => Z.pos m / 2 ^ Z.pos p
               | _ => Z.pos m * 2 ^ e
               end in
      if s then - a else a
  | _ => 0
  end.
(** [.astype(np.uint8)]: the C conversion, which truncates; the result for a
    NaN or an infinity is left to the platform by C and taken as 0 here (the
    program only converts clipped values). *)
Definition to_u8 (x : spec_float) : Z := trunc x mod 256.
End F32.

(** ** Exceptions *)

(** A raised Python exception: its class name and [str(e)].  Only subclasses
    of [Exception] are modelled; they are the ones [except Exception]
    catches. *)
Record exn := Exn { exn_class : string; exn_msg : string }.

Definition result (A : Type) : Type := (exn + A)%type.

(** ** Python arithmetic on [int] and [float] *)

Module Py.

Definition signed_finite (n : Z) (e : Z) : spec_float :=
  match n with
  | Z0 => S754_zero false
  | Z.pos p => S754_finite false p e
  | Z.neg p => S754_finite true p e
  end.

(** [float(n)], the conversion an [int] undergoes when it meets a [float]. *)
Definition int_to_float (n : Z) : result spec_float :=
  match F64.of_Z n with
  | S754_infinity _ => inl (Exn "OverflowError" "int too large to convert to float")
  | x => inr x
  end.

(** [a / b] on two [int]s: the correctly rounded quotient. *)
Definition int_truediv (a b : Z) : result spec_float :=
  if b =? 0 then inl (Exn "ZeroDivisionError" "division by zero")
  else
    match F64.div (signed_finite a 0) (signed_finite b 0) with
    | S754_infinity _ =>
        inl (Exn "OverflowError" "integer division result too large for a float")
    | x => inr x
    end.

(** [x / y] on two [float]s. *)
Definition float_truediv (x y : spec_float) : result spec_float :=
  if F64.is_zero y then inl (Exn "ZeroDivisionError" "float division by zero")
  else inr (F64.div x y).

(** Round half to even of [m * 2^e] for [m > 0]. *)
Definition round_half_even_pos (m : positive) (e : Z) : Z :=
  match e with
  | Z.neg p =>
      let d := 2 ^ Z.pos p in
      let q := Z.pos m / d in
      let r := Z.pos m mod d in
      match 2 * r ?= d with
      | Lt => q
      | Gt => q + 1
      | Eq => if Z.even q then q else q + 1
      end
  | _ => Z.pos m * 2 ^ e
  end.

(** [round(x)] with one argument: an [int], ties to even. *)
Definition round (x : spec_float) : result Z :=
  match x with
  | S754_nan => inl (Exn "ValueError" "cannot convert float NaN to integer")
  | S754_infinity _ =>
      inl (Exn "OverflowError" "cannot convert float infinity to integer")
  | S754_zero _ => inr 0
  | S754_finite s m e =>
      let n := round_half_even_pos m e in
      inr (if s then - n else n)
  end.

End Py.

(** ** numpy arrays

    An array is the list of its elements in C order; the element-wise
    operations of the program do not depend on the shape. *)

Module Np.

(** [l[m]] for a boolean mask [m]: the selected elements, in order. *)
Fixpoint mask_get {A : Type} (l : list A) (m : list bool) : list A :=
  match l, m with
  | x :: l', b :: m' => if b then x :: mask_get l' m' else mask_get l' m'
  | _, _ => []
  end.

(** [out[m] = vals]: the selected positions receive the successive values. *)
Fixpoint mask_set {A : Type} (out : list A) (m : list bool) (vals : list A)
  : list A :=
  match out, m with
  | x :: out', b :: m' =>
      if b then
        match vals with
        | v :: vals' => v :: mask_set out' m' vals'
        | [] => x :: mask_set out' m' []
        end
      else x :: mask_set out' m' vals
  | _, _ => out
  end.

End Np.

(** What the program takes from numpy without fixing it: the [float32] power
    function (numpy calls the platform's [powf] or a vectorised variant; IEEE
    754 does not fix its results) and the unspecified contents of a freshly
    allocated array. *)
Class NumpyLib := {
  powf : spec_float -> spec_float -> spec_float;
  uninitialised : nat -> spec_float
}.

(** ** Colour-space converter *)

Definition CSI : string := PyStr.chr 27 ++ "[".

Definition VERILOG_EXTENSIONS : list string := [".sv"; ".v"; ".svh"; ".vh"].

(** The float literals of the converter, as the [float32] scalars they
    become next to a [float32] array. *)
Module K.
Definition c255_0 : spec_float := F32.of_f64 (F64.lit 255 1).
Definition c0_04045 : spec_float := F32.of_f64 (F64.lit 4045 100000).
Definition c12_92 : spec_float := F32.of_f64 (F64.lit 1292 100).
Definition c0_055 : spec_float := F32.of_f64 (F64.lit 55 1000).
Definition c1_055 : spec_float := F32.of_f64 (F64.lit 1055 1000).
Definition c2_4 : spec_float := F32.of_f64 (F64.lit 24 10).
Definition c0_0031308 : spec_float := F32.of_f64 (F64.lit 31308 10000000).
(** [1/2.4], evaluated in binary64 before it is narrowed. *)
Definition c1_over_2_4 : spec_float :=
  F32.of_f64 (F64.div (F64.of_Z 1) (F64.lit 24 10)).
Definition c0_5 : spec_float := F32.of_f64 (F64.lit 5 10).
Definition c0 : spec_float := F32.of_Z 0.
Definition c255 : spec_float := F32.of_Z 255.
End K.

Section ColourSpace.
Context {NP : NumpyLib}.

(** [np.empty_like(c, dtype=np.float32)]. *)
Definition empty_like (c : list spec_float) : list spec_float :=
  map uninitialised (seq 0 (List.length c)).

(** sRGB to linear light space. *)
Definition srgb_to_linear (arr_u8 : list Z) : list spec_float :=
  let c := map (fun v => F32.div (F32.of_Z v) K.c255_0) arr_u8 in
  let a := map (fun x => F32.leb x K.c0_04045) c in
  let out := empty_like c in
  let out := Np.mask_set out a
               (map (fun x => F32.div x K.c12_92) (Np.mask_get c a)) in
  let out := Np.mask_set out (map negb a)
               (map (fun x => powf (F32.div (F32.add x K.c0_055) K.c1_055) K.c2_4)
                    (Np.mask_get c (map negb a))) in
  out.

(** Linear light space to sRGB. *)
Definition linear_to_srgb (arr_f : list spec_float) : list Z :=
  let a := map (fun x => F32.leb x K.c0_0031308) arr_f in
  let out := empty_like arr_f in
  let out := Np.mask_set out a
               (map (fun x => F32.mul K.c12_92 x) (Np.mask_get arr_f a)) in
  let out := Np.mask_set out (map negb a)
               (map (fun x => F32.sub (F32.mul K.c1_055 (powf x K.c1_over_2_4)) K.c0_055)
                    (Np.mask_get arr_f (map negb a))) in
  map (fun x => F32.to_u8 (F32.clip (F32.add (F32.mul x K.c255_0) K.c0_5) K.c0 K.c255))
      out.

End ColourSpace.

(** ** Images and the imaging library *)

Inductive Resampling := LANCZOS | BICUBIC.

Definition pixel : Type := (Z * Z * Z)%type.

(** A PIL image of mode ["RGB"]: its size and its pixels, row by row. *)
Record Image := mkImage { im_w : Z; im_h : Z; im_px : list pixel }.

(** A PIL image of mode ["F"] (one [float32] per pixel). *)
Record ImageF := mkImageF { imf_w : Z; imf_h : Z; imf_px : list spec_float }.

Record UnsharpParams :=
  mkUnsharp { radius : spec_float; percent : Z; threshold : Z }.

(** Calls into the imaging library. *)
Inductive call :=
| Call_open (path : string)
| Call_resize (w h : Z) (k : Resampling)
| Call_resize_F (w h : Z) (k : Resampling)
| Call_MedianFilter (size : Z)
| Call_Color (factor : spec_float)
| Call_Contrast (factor : spec_float)
| Call_UnsharpMask (p : UnsharpParams).

(** What a run does that can be observed from outside. *)
Inductive event :=
| Ev_call (c : call)
| Ev_print (text : string)
| Ev_traceback (e : exn)
| Ev_open (path : string)
| Ev_write (path text : string)
| Ev_close (path : string)
| Ev_argparse (message : string).

(** The collaborators of the pipeline: the file system, standard output, the
    imaging library and the formatting of a [float] by [str()].
    [io_error t ev] tells whether the output action [ev] (opening or writing
    a file, printing a line), attempted after the trace [t], raises. *)
Class Platform := {
  os_path_exists : string -> bool;
  Image_open : string -> result Image;
  Image_resize : Image -> Z -> Z -> Resampling -> result Image;
  ImageF_resize : ImageF -> Z -> Z -> Resampling -> result ImageF;
  MedianFilter : Z -> Image -> result Image;
  Color_enhance : Image -> spec_float -> result Image;
  Contrast_enhance : Image -> spec_float -> result Image;
  UnsharpMask : UnsharpParams -> Image -> result Image;
  float_str : spec_float -> string;
  io_error : list event -> event -> option exn
}.

(** ** The monad of the pipeline: a growing trace and a possible exception *)

Definition M (A : Type) : Type := list event -> list event * result A.

Definition ret {A : Type} (a : A) : M A := fun t => (t, inr a).

Definition bind {A B : Type} (m : M A) (k : A -> M B) : M B :=
  fun t =>
    match m t with
    | (t', inl e) => (t', inl e)
    | (t', inr a) => k a t'
    end.

Declare Scope monad_scope.
Delimit Scope monad_scope with monad.
Notation "x <- c1 ;; c2" := (bind c1 (fun x => c2))
  (at level 61, c1 at next level, right associativity) : monad_scope.
Notation "c1 ;; c2" := (bind c1 (fun _ => c2))
  (at level 61, right associativity) : monad_scope.
Open Scope monad_scope.

(** A pure computation that may raise. *)
Definition lift {A : Type} (r : result A) : M A := fun t => (t, r).

(** A call into the imaging library. *)
Definition lib {A : Type} (c : call) (r : result A) : M A :=
  fun t => ((t ++ [Ev_call c])%list, r).

Section FileActions.
Context {PF : Platform}.

(** An output action that the system may refuse: it raises and leaves no
    trace, or it is done. *)
Definition file_action (ev : event) : M unit :=
  fun t =>
    match io_error t ev with
    | Some e => (t, inl e)
    | None => ((t ++ [ev])%list, inr tt)
    end.

(** [print(text)]: standard output may refuse the line (a closed pipe, a
    character its encoding does not have). *)
Definition print (text : string) : M unit := file_action (Ev_print text).

(** [with open(path, "w", encoding="utf-8") as f: body]: the file is closed
    on every exit path. *)
Definition with_open (path : string) (body : M unit) : M unit :=
  fun t =>
    match file_action (Ev_open path) t with
    | (t1, inl e) => (t1, inl e)
    | (t1, inr _) =>
        let '(t2, r) := body t1 in ((t2 ++ [Ev_close path])%list, r)
    end.

(** [f.write(text)] for each text. *)
Fixpoint write_all (path : string) (texts : list string) : M unit :=
  match texts with
  | [] => ret tt
  | s :: rest => file_action (Ev_write path s) ;; write_all path rest
  end.

(** [print(line)] for each line. *)
Fixpoint print_all (lines : list string) : M unit :=
  match lines with
  | [] => ret tt
  | s :: rest => print s ;; print_all rest
  end.

End FileActions.

(** Sequencing of fallible pure computations. *)
Definition rbind {A B : Type} (r : result A) (k : A -> result B) : result B :=
  match r with
  | inl e => inl e
  | inr a => k a
  end.

Fixpoint traverse {A B : Type} (f : A -> result B) (l : list A)
  : result (list B) :=
  match l with
  | [] => inr []
  | x :: l' =>
      rbind (f x) (fun y => rbind (traverse f l') (fun ys => inr (y :: ys)))
  end.

(** [range(start, stop, step)] for a positive [step]. *)
Definition range (start stop step : Z) : list Z :=
  map (fun i => start + step * Z.of_nat i)
      (seq 0 (Z.to_nat ((stop - start + step - 1) / step))).

(** ** Arrays and images *)

Module Arr.

(** [np.array(img, dtype=np.uint8)] of an RGB image, shape (h, w, 3). *)
Definition of_image (img : Image) : list Z :=
  flat_map (fun p : pixel => let '(r, g, b) := p in [r; g; b]) (im_px img).

(** [a[:, :, i]] of an array of shape (h, w, 3). *)
Fixpoint channel {A : Type} (i : nat) (l : list A) : list A :=
  match l with
  | a :: b :: c :: l' =>
      match i with
      | O => a
      | S O => b
      | _ => c
      end :: channel i l'
  | _ => []
  end.

(** The elements of [np.stack([c0, c1, c2], axis=2)]. *)
Fixpoint interleave {A : Type} (c0 c1 c2 : list A) : list A :=
  match c0, c1, c2 with
  | a :: c0', b :: c1', c :: c2' => a :: b :: c :: interleave c0' c1' c2'
  | _, _, _ => []
  end.

(** The pixels of [Image.fromarray(a, "RGB")] for [a] of shape (h, w, 3). *)
Fixpoint pixels (l : list Z) : list pixel :=
  match l with
  | r :: g :: b :: l' => (r, g, b) :: pixels l'
  | _ => []
  end.

End Arr.

(** ** Resampler *)

Section Pipeline.
Context {NP : NumpyLib} {PF : Platform}.

(** The body shared by the two linear-light methods, which differ in the
    kernel only: convert to linear light, resize each channel as a mode-F
    image, stack the channels, convert back. *)
Definition linear_light_resize (pil_img : Image) (w h : Z) (k : Resampling)
  : M Image :=
  let src := Arr.of_image pil_img in
  let lin := srgb_to_linear src in
  let plane i := mkImageF (im_w pil_img) (im_h pil_img) (Arr.channel i lin) in
  ch0 <- lib (Call_resize_F w h k) (ImageF_resize (plane 0%nat) w h k) ;;
  ch1 <- lib (Call_resize_F w h k) (ImageF_resize (plane 1%nat) w h k) ;;
  ch2 <- lib (Call_resize_F w h k) (ImageF_resize (plane 2%nat) w h k) ;;
  if ((imf_w ch0 =? imf_w ch1) && (imf_h ch0 =? imf_h ch1)
      && (imf_w ch0 =? imf_w ch2) && (imf_h ch0 =? imf_h ch2))%bool
  then
    let lin_small := Arr.interleave (imf_px ch0) (imf_px ch1) (imf_px ch2) in
    ret (mkImage (imf_w ch0) (imf_h ch0) (Arr.pixels (linear_to_srgb lin_small)))
  else
    lift (inl (Exn "ValueError" "all input arrays must have the same shape")).

(** Optimized resize strategy. *)
Definition resize_with_optimal_filter (pil_img : Image) (w h : Z)
  (method : string) : M Image :=
  if String.eqb method "linear_lanczos" then linear_light_resize pil_img w h LANCZOS
  else if String.eqb method "linear_bicubic" then linear_light_resize pil_img w h BICUBIC
  else if String.eqb method "lanczos" then
    lib (Call_resize w h LANCZOS) (Image_resize pil_img w h LANCZOS)
  else if String.eqb method "bicubic" then
    lib (Call_resize w h BICUBIC) (Image_resize pil_img w h BICUBIC)
  else
    lib (Call_resize w h LANCZOS) (Image_resize pil_img w h LANCZOS).

(** ** Filter chain *)

(** [d.get(key, default)] on a dictionary given by its items. *)
Fixpoint dict_get {V : Type} (d : list (string * V)) (key : string)
  (default : V) : V :=
  match d with
  | [] => default
  | (k, v) :: d' => if String.eqb k key then v else dict_get d' key default
  end.

Definition params_light : UnsharpParams := mkUnsharp (F64.lit 7 10) 80 3.
Definition params_medium : UnsharpParams := mkUnsharp (F64.lit 10 10) 110 2.
Definition params_strong : UnsharpParams := mkUnsharp (F64.lit 12 10) 140 1.

Definition sharpen_params : list (string * UnsharpParams) :=
  [("light", params_light); ("medium", params_medium); ("strong", params_strong)].

(** Edge-aware sharpening that only sharpens where needed. *)
Definition apply_edge_aware_sharpen (pil_img : Image) (strength : string)
  : M Image :=
  if String.eqb strength "none" then ret pil_img
  else
    let p := dict_get sharpen_params strength params_light in
    lib (Call_UnsharpMask p) (UnsharpMask p pil_img).

(** Enhance color separation. *)
Definition enhance_color_separation (pil_img : Image)
  (saturation contrast : spec_float) : M Image :=
  let img := pil_img in
  img <- (if F64.neqb saturation F64.one
          then lib (Call_Color saturation) (Color_enhance img saturation)
          else ret img) ;;
  img <- (if F64.neqb contrast F64.one
          then lib (Call_Contrast contrast) (Contrast_enhance img contrast)
          else ret img) ;;
  ret img.

(** Gentle denoise to remove small color noise. *)
Definition apply_gentle_denoise (pil_img : Image) (radius : Z) : M Image :=
  if radius <=? 0 then ret pil_img
  else
    let size := Z.min 5 (radius * 2 + 1) in
    lib (Call_MedianFilter size) (MedianFilter size pil_img).

(** ** Cell encoder *)

Definition UPPER_HALF : string := "▀".
Definition LOWER_HALF : string := "▄".
Definition FULL_BLOCK : string := "█".

(** Standard half-block ANSI sequence without smart blending. *)
Definition ansi_fg_bg (top_rgb bot_rgb : pixel) (use_upper use_csi : bool)
  : string :=
  let '(rt, gt, bt) := top_rgb in
  let '(rb, gb, bb) := bot_rgb in
  let ch := if use_upper then UPPER_HALF else LOWER_HALF in
  let pre := if use_csi then CSI else "[" in
  pre ++ "38;2;" ++ PyStr.of_int rt ++ ";" ++ PyStr.of_int gt ++ ";"
      ++ PyStr.of_int bt ++ "m"
  ++ pre ++ "48;2;" ++ PyStr.of_int rb ++ ";" ++ PyStr.of_int gb ++ ";"
      ++ PyStr.of_int bb ++ "m"
  ++ ch ++ pre ++ "0m".

(** Full-block ANSI sequence. *)
Definition ansi_single (rgb : pixel) (char : string) (use_csi : bool) : string :=
  let '(r, g, b) := rgb in
  let pre := if use_csi then CSI else "[" in
  pre ++ "38;2;" ++ PyStr.of_int r ++ ";" ++ PyStr.of_int g ++ ";"
      ++ PyStr.of_int b ++ "m" ++ char ++ pre ++ "0m".

(** ** Output format *)

(** Resolve the final output format. *)
Definition resolve_output_format (output_format : string)
  (output_file : option string) : string :=
  if negb (String.eqb output_format "auto") then output_format
  else
    match output_file with
    | Some f =>
        if PyStr.truthy output_file
           && existsb (String.eqb (PyStr.lower (snd (OsPath.splitext f))))
                      VERILOG_EXTENSIONS
        then "verilog"
        else "ansi"
    | None => "ansi"
    end.

(** Choose default output path when --output is not provided. *)
Definition default_output_path (image_path output_format : string) : string :=
  let stem := fst (OsPath.splitext (OsPath.basename image_path)) in
  let stem := if String.eqb stem EmptyString then "output" else stem in
  let ext := if String.eqb output_format "verilog" then ".sv" else ".ans" in
  stem ++ ext.

Definition BACKSLASH : ascii := "\"%char.
Definition DQUOTE : ascii := "034"%char.

(** Escape text for a Verilog string literal. *)
Definition escape_verilog_string (text : string) : string :=
  PyStr.replace DQUOTE (String BACKSLASH (String DQUOTE EmptyString))
    (PyStr.replace BACKSLASH (String BACKSLASH (String BACKSLASH EmptyString))
       text).

End Pipeline.

(** ** The entry point *)

Record Args := mkArgs {
  image_path : string;
  width : Z;
  output_file : option string;
  module_name : string;
  half_block : bool;
  upper_half : bool;
  char_full : string;
  use_csi : bool;
  output_format : string;
  resize_method : string;
  sharpen : string;
  denoise : Z;
  saturation : spec_float;
  contrast : spec_float;
  cell_aspect : spec_float
}.

Definition NL : string := PyStr.chr 10.

Definition RULE : string :=
  "//============================================================================".

(** [height_chars = max(1, int(round(width * aspect_ratio / cell_aspect)))]
    with [aspect_ratio = src_h / src_w]. *)
Definition target_height_chars (src_w src_h width : Z)
  (cell_aspect : spec_float) : result Z :=
  rbind (Py.int_truediv src_h src_w) (fun aspect_ratio =>
  rbind (Py.int_to_float width) (fun fwidth =>
  rbind (Py.float_truediv (F64.mul fwidth aspect_ratio) cell_aspect) (fun q =>
  rbind (Py.round q) (fun n =>
  inr (Z.max 1 n))))).

(** The pixel height handed to the resize. *)
Definition target_h_px (half_block : bool) (height_chars : Z) : Z :=
  if half_block then
    let h_px := height_chars * 2 in
    if h_px mod 2 =? 1 then h_px + 1 else h_px
  else height_chars.

(** [img.getpixel((x, y))]. *)
Definition getpixel (img : Image) (x y : Z) : result pixel :=
  if ((0 <=? x) && (x <? im_w img) && (0 <=? y) && (y <? im_h img))%bool then
    match nth_error (im_px img) (Z.to_nat (y * im_w img + x)) with
    | Some p => inr p
    | None => inl (Exn "IndexError" "image index out of range")
    end
  else inl (Exn "IndexError" "image index out of range").

(** [img.crop((0, 0, w, h))] for a box inside the image. *)
Definition crop (img : Image) (w h : Z) : Image :=
  mkImage w h (firstn (Z.to_nat (w * h)) (im_px img)).

(** Step 5, the loops: the [row] lists of cell strings, one list per
    character row, and [out_h_chars]. *)
Definition render_rows (img : Image) (half_block upper_half : bool)
  (char_full : string) (use_csi : bool) : result (list (list string) * Z) :=
  let w := im_w img in
  let h := im_h img in
  if half_block then
    let '(h, img) :=
      if h mod 2 =? 1 then (h - 1, crop img w (h - 1)) else (h, img) in
    rbind
      (traverse
         (fun y =>
            traverse
              (fun x =>
                 rbind (getpixel img x y) (fun top =>
                 rbind (getpixel img x (y + 1)) (fun bot =>
                 inr (ansi_fg_bg top bot upper_half use_csi))))
              (range 0 w 1))
         (range 0 h 2))
      (fun rows => inr (rows, h / 2))
  else
    rbind
      (traverse
         (fun y =>
            traverse
              (fun x =>
                 rbind (getpixel img x y) (fun p =>
                 inr (ansi_single p char_full use_csi)))
              (range 0 w 1))
         (range 0 h 1))
      (fun rows => inr (rows, h)).

(** Step 5: each row is joined into one line as soon as it is complete. *)
Definition generate_ansi_lines (img : Image) (half_block upper_half : bool)
  (char_full : string) (use_csi : bool) : result (list string * Z) :=
  rbind (render_rows img half_block upper_half char_full use_csi)
        (fun r => inr (map PyStr.join (fst r), snd r)).

(** The statement emitted for one rendered line in the Verilog format. *)
Definition display_statement (line : string) : string :=
  "$display(" ++ String DQUOTE (escape_verilog_string line)
  ++ String DQUOTE ");".

Section EntryPoint.
Context {NP : NumpyLib} {PF : Platform}.

(** Step 2: optional denoise. *)
Definition stage_denoise (img : Image) (denoise : Z) : M Image :=
  if 0 <? denoise then apply_gentle_denoise img denoise else ret img.

(** Step 3: colour adjustment. *)
Definition stage_colour (img : Image) (saturation contrast : spec_float)
  : M Image :=
  if F64.neqb saturation F64.one || F64.neqb contrast F64.one
  then enhance_color_separation img saturation contrast
  else ret img.

(** Step 4: light sharpening compensation. *)
Definition stage_sharpen (img : Image) (sharpen : string) : M Image :=
  if negb (String.eqb sharpen "none") then apply_edge_aware_sharpen img sharpen
  else ret img.

(** Steps 1 to 4 after loading: the image the cell encoder consumes,
    together with the source size. *)
Definition prepare (a : Args) : M (Image * Z * Z) :=
  src <- lib (Call_open (image_path a)) (Image_open (image_path a)) ;;
  let src_w := im_w src in
  let src_h := im_h src in
  height_chars <- lift (target_height_chars src_w src_h (width a) (cell_aspect a)) ;;
  let h_px := target_h_px (half_block a) height_chars in
  img <- resize_with_optimal_filter src (width a) h_px (resize_method a) ;;
  img <- stage_denoise img (denoise a) ;;
  img <- stage_colour img (saturation a) (contrast a) ;;
  img <- stage_sharpen img (sharpen a) ;;
  ret (img, src_w, src_h).

(** Everything the [try] block computes before it writes: steps 1 to 5. *)
Definition render (a : Args) : M (list string * Z * Z * Z) :=
  r <- prepare a ;;
  let '(img, src_w, src_h) := r in
  enc <- lift (generate_ansi_lines img (half_block a) (upper_half a)
                 (char_full a) (use_csi a)) ;;
  let '(ansi_lines, out_h_chars) := enc in
  ret (ansi_lines, out_h_chars, src_w, src_h).

(** Step 6: format-specific output. *)
Definition write_output (a : Args) (src_w src_h out_h_chars : Z)
  (ansi_lines : list string) : M unit :=
  let final_format := resolve_output_format (output_format a) (output_file a) in
  if String.eqb final_format "verilog" then
    let display_lines := map display_statement ansi_lines in
    match output_file a with
    | Some f =>
        if PyStr.truthy (output_file a) then
          let header :=
            [ RULE ++ NL;
              "// Auto-generated image display code - "
                ++ OsPath.basename (image_path a) ++ NL;
              "// Source size: " ++ PyStr.of_int src_w ++ "x"
                ++ PyStr.of_int src_h ++ NL;
              "// Output size: " ++ PyStr.of_int (width a) ++ "x"
                ++ PyStr.of_int out_h_chars ++ NL;
              "// Output format: " ++ final_format ++ NL;
              "// Options: resize_method=" ++ resize_method a
                ++ " sharpen=" ++ sharpen a ++ NL;
              "//          denoise=" ++ PyStr.of_int (denoise a)
                ++ " saturation=" ++ float_str (saturation a)
                ++ " contrast=" ++ float_str (contrast a) ++ NL;
              RULE ++ NL ++ NL;
              "task " ++ module_name a ++ ";" ++ NL ++ "begin" ++ NL ] in
          let statements := map (fun line => "  " ++ line ++ NL) display_lines in
          let footer := [ "end" ++ NL ++ "endtask" ++ NL ] in
          with_open f (write_all f (List.app header (List.app statements footer))) ;;
          print ("Wrote output file: " ++ f ++ " (format=" ++ final_format ++ ")")
        else print_all display_lines
    | None => print_all display_lines
    end
  else
    match output_file a with
    | Some f =>
        if PyStr.truthy (output_file a) then
          with_open f (write_all f (map (fun line => line ++ NL) ansi_lines)) ;;
          print ("Wrote output file: " ++ f ++ " (format=" ++ final_format ++ ")")
        else print_all ansi_lines
    | None => print_all ansi_lines
    end.

(** The [try] block of the entry point: steps 1 to 6. *)
Definition process (a : Args) : M unit :=
  r <- render a ;;
  let '(ansi_lines, out_h_chars, src_w, src_h) := r in
  write_output a src_w src_h out_h_chars ansi_lines.

(** [try: body / except Exception as e: handler e]. *)
Definition try_except {A : Type} (body : M A) (handler : exn -> M A) : M A :=
  fun t =>
    match body t with
    | (t', inl e) => handler e t'
    | (t', inr a) => (t', inr a)
    end.

(** Refined image conversion with better line continuity and cleaner
    colors.  The result is the function's boolean. *)
Definition image_to_verilog_display (a : Args) : M bool :=
  if negb (os_path_exists (image_path a)) then
    print ("Error: image file not found: '" ++ image_path a ++ "'") ;;
    ret false
  else
    try_except
      (process a ;; ret true)
      (fun e =>
         print ("Error while processing image: " ++ exn_msg e) ;;
         (fun t => ((t ++ [Ev_traceback e])%list, inr tt)) ;;
         ret false).

(** The parsed command line. *)
Record Namespace := mkNamespace {
  ns_image : string;
  ns_width : Z;
  ns_output : option string;
  ns_name : string;
  ns_format : string;
  ns_no_csi : bool;
  ns_no_half_block : bool;
  ns_upper_half : bool;
  ns_lower_half : bool;
  ns_char : string;
  ns_cell_aspect : spec_float;
  ns_resize_method : string;
  ns_sharpen : string;
  ns_denoise : Z;
  ns_saturation : spec_float;
  ns_contrast : spec_float
}.

(** What [build_argparser().parse_args()] makes of the command line: the
    namespace, or an exit of its own, after writing its help (status 0) or
    its usage and error message (status 2). *)
Inductive parsed :=
| Parsed (args : Namespace)
| SystemExit (status : Z) (message : string).

(** The parser [build_argparser] returns, as [argparse] runs it. *)
Class ArgumentParser := { parse_args : list string -> parsed }.

(** [main] from its second statement on; the result is the status handed to
    [sys.exit]. *)
Definition main_parsed (args : Namespace) : M Z :=
  width <- (if (ns_width args <=? 0) || (200 <? ns_width args) then
              print "Warning: width should be in 1-200; value has been clamped." ;;
              ret (Z.max 1 (Z.min 200 (ns_width args)))
            else ret (ns_width args)) ;;
  let half_block := negb (ns_no_half_block args) in
  let upper := if ns_upper_half args || negb (ns_lower_half args) then true else false in
  let output_path :=
    if PyStr.truthy (ns_output args) then ns_output args
    else Some (default_output_path (ns_image args) (ns_format args)) in
  ok <- image_to_verilog_display
          (mkArgs (ns_image args) width output_path (ns_name args)
                  half_block upper (ns_char args) (negb (ns_no_csi args))
                  (ns_format args) (ns_resize_method args) (ns_sharpen args)
                  (ns_denoise args) (ns_saturation args) (ns_contrast args)
                  (ns_cell_aspect args)) ;;
  ret (if ok then 0 else 1).

Context {AP : ArgumentParser}.

(** [main], with [argv] for [sys.argv[1:]]; the result is the exit status of
    the process, and an exception is one that leaves [main] uncaught. *)
Definition main (argv : list string) : M Z :=
  match parse_args argv with
  | Parsed args => main_parsed args
  | SystemExit status message =>
      fun t => ((t ++ [Ev_argparse message])%list, inr status)
  end.

End EntryPoint.

(** * Specification-side definitions

    The definitions of this part follow the words of the specification, or,
    where it is silent (how accurate a power function is, what a string
    literal is), the usual definitions; the theorems compare them with the
    definitions above. *)

(** ** The transfer functions, sample by sample *)

(** Scale by 255, add 0.5, clamp to [0,255], truncate to integer. *)
Definition quantise (v : spec_float) : Z :=
  F32.to_u8 (F32.clip (F32.add (F32.mul v K.c255_0) K.c0_5) K.c0 K.c255).

(** The base handed to the power function for the scaled sample [c']. *)
Definition pow_base (c' : spec_float) : spec_float :=
  F32.div (F32.add c' K.c0_055) K.c1_055.

Section TransferFunctions.
Context {NP : NumpyLib}.

(** [to_linear(c)]: let [c' = c/255]; if [c' <= 0.04045], the result is
    [c'/12.92], else [((c' + 0.055)/1.055)^2.4]. *)
Definition to_linear (c : Z) : spec_float :=
  let c' := F32.div (F32.of_Z c) K.c255_0 in
  if F32.leb c' K.c0_04045 then F32.div c' K.c12_92
  else powf (pow_base c') K.c2_4.

(** [to_srgb(c)]: if [c <= 0.0031308], [12.92 * c], else
    [1.055 * c^(1/2.4) - 0.055]; then quantised. *)
Definition to_srgb (c : spec_float) : Z :=
  quantise (if F32.leb c K.c0_0031308 then F32.mul K.c12_92 c
            else F32.sub (F32.mul K.c1_055 (powf c K.c1_over_2_4)) K.c0_055).

End TransferFunctions.

(** ** Accuracy of the power function *)

(** The rational value of a finite float. *)
Definition F2Q (x : spec_float) : Q :=
  match x with
  | S754_finite s m e => (if s then -1 else 1) * inject_Z (Z.pos m) * 2 ^ e
  | _ => 0
  end%Q.

(** A positive finite [float32] in canonical form. *)
Definition pos_finite (x : spec_float) : bool :=
  match x with
  | S754_finite false _ _ => F32.valid x
  | _ => false
  end.

(** The relative error granted to the power function: [2^-20], between 8
    and 16 units in the last place of a [float32].  It leaves room for the
    error of the platform's [powf] and for the exponents being the [float32]
    values nearest to 2.4 and 1/2.4 rather than 12/5 and 5/12. *)
Definition eps : Q := 1 # 1048576.

(** [y] is [x^(p/q)] up to the relative error [eps]:
    [(1 - eps)^q * x^p <= y^q <= (1 + eps)^q * x^p]. *)
Definition pow_close (p q : positive) (x y : spec_float) : bool :=
  pos_finite y
  && Qle_bool ((1 - eps) ^ Z.pos q * F2Q x ^ Z.pos p) (F2Q y ^ Z.pos q)
  && Qle_bool (F2Q y ^ Z.pos q) ((1 + eps) ^ Z.pos q * F2Q x ^ Z.pos p).

Section Accuracy.
Context {NP : NumpyLib}.

(** The power function is accurate where the round trip of the byte [c]
    uses it: on the base [x] that [c] produces, with exponent 2.4 = 12/5, and
    on the result of that, with exponent 1/2.4 = 5/12.  Bytes on the linear
    segment use no power. *)
Definition powf_accurate_at (c : Z) : bool :=
  let c' := F32.div (F32.of_Z c) K.c255_0 in
  F32.leb c' K.c0_04045
  || (let x := pow_base c' in
      let y := powf x K.c2_4 in
      let z := powf y K.c1_over_2_4 in
      pow_close 12 5 x y && pow_close 5 12 y z).

End Accuracy.

(** ** Checking the round trip by enumeration *)

(** A result [z] of the second power lies within the relative distance
    [delta] of the base [x] of the first. *)
Definition delta : Q := 3 # 2097152.

Definition Zrange (lo hi : Z) : list Z :=
  map (fun i => lo + Z.of_nat i) (seq 0 (Z.to_nat (hi - lo + 1))).

(** [P] holds of every normal [float32] within [delta] of the normal [x]:
    such a float has the exponent of [x] or a neighbouring one, and its
    mantissa lies in an interval of a few dozen integers. *)
Definition cand_check (x : spec_float) (P : spec_float -> bool) : bool :=
  match x with
  | S754_finite false mx ex =>
      (Z.pos (digits2_pos mx) =? 24) && (-147 <=? ex) &&
      forallb (fun d =>
        let lo := Qfloor ((1 - delta) * inject_Z (Z.pos mx) * 2 ^ (- d)) in
        let hi := Qfloor ((1 + delta) * inject_Z (Z.pos mx) * 2 ^ (- d)) in
        forallb (fun m => P (S754_finite false (Z.to_pos m) (ex + d)))
                (Zrange (Z.max lo 8388608) (Z.min hi 16777215)))
        [-1; 0; 1]
  | _ => false
  end.

(** What [linear_to_srgb] does with the result [z] of its power. *)
Definition post (z : spec_float) : Z :=
  quantise (F32.sub (F32.mul K.c1_055 z) K.c0_055).

Definition Qltb (a b : Q) : bool := negb (Qle_bool b a).

(** The byte [c] takes the power branch, any accurate first power exceeds the
    threshold of the inverse, and every candidate result of the second power
    is quantised to [c]. *)
Definition check_byte (c : Z) : bool :=
  let c' := F32.div (F32.of_Z c) K.c255_0 in
  negb (F32.leb c' K.c0_04045)
  && Qltb (F2Q K.c0_0031308 ^ 5) ((1 - eps) ^ 5 * F2Q (pow_base c') ^ 12)
  && cand_check (pow_base c') (fun z => post z =? c).

(** ** A reference power function

    [x^(p/q)] by an integer root: a power function that meets the accuracy
    requirement, used to show that the requirement can be met. *)

Fixpoint iroot_bisect (fuel : nat) (q : positive) (n lo hi : Z) : Z :=
  match fuel with
  | O => lo
  | S fuel' =>
      let mid := (lo + hi) / 2 in
      if mid ^ Z.pos q <=? n then iroot_bisect fuel' q n mid hi
      else iroot_bisect fuel' q n lo mid
  end.

Definition pow_rational (p q : positive) (x : spec_float) : spec_float :=
  match x with
  | S754_finite false m e =>
      let bits := Z.pos (digits2_pos m) + e in
      let k := 32 - (Z.pos p * bits) / Z.pos q in
      let n := Z.shiftl (Z.pos m ^ Z.pos p) (Z.pos p * e + Z.pos q * k) in
      let r := iroot_bisect 40 q n 0 (2 ^ 40) in
      binary_normalize F32.prec F32.emax r (- k) false
  | _ => S754_nan
  end.

Definition powf_ref (x e : spec_float) : spec_float :=
  if SFeqb e K.c2_4 then pow_rational 12 5 x
  else if SFeqb e K.c1_over_2_4 then pow_rational 5 12 x
  else S754_nan.

Definition RefNumpy : NumpyLib :=
  {| powf := powf_ref; uninitialised := fun _ => S754_nan |}.

(** ** Cells *)

(** The set-foreground and set-background true-colour sequences and the
    reset sequence, after the escape prefix [pre]. *)
Definition sgr_fg (pre : string) (rgb : pixel) : string :=
  let '(r, g, b) := rgb in
  pre ++ "38;2;" ++ PyStr.of_int r ++ ";" ++ PyStr.of_int g ++ ";"
      ++ PyStr.of_int b ++ "m".

Definition sgr_bg (pre : string) (rgb : pixel) : string :=
  let '(r, g, b) := rgb in
  pre ++ "48;2;" ++ PyStr.of_int r ++ ";" ++ PyStr.of_int g ++ ";"
      ++ PyStr.of_int b ++ "m".

Definition sgr_reset (pre : string) : string := pre ++ "0m".

Definition escape_prefix (use_csi : bool) : string :=
  if use_csi then CSI else "[".

Definition half_glyph (use_upper : bool) : string :=
  if use_upper then UPPER_HALF else LOWER_HALF.

(** ** Extensions *)

(** Equality up to the case of ASCII letters. *)
Definition caseless_eq (a b : string) : Prop := PyStr.lower a = PyStr.lower b.

(** The extension of a path. *)
Definition extension (p : string) : string := snd (OsPath.splitext p).

(** ** String literals *)

(** Character by character: a backslash becomes two, a double quote becomes
    a backslash and a double quote, anything else is kept. *)
Definition escape_char (c : ascii) : string :=
  if Ascii.eqb c BACKSLASH then String BACKSLASH (String BACKSLASH EmptyString)
  else if Ascii.eqb c DQUOTE then String BACKSLASH (String DQUOTE EmptyString)
  else String c EmptyString.

Fixpoint escape_chars (s : string) : string :=
  match s with
  | EmptyString => EmptyString
  | String c s' => escape_char c ++ escape_chars s'
  end.

(** The character an escape sequence [\c] stands for. *)
Definition unescape (c : ascii) : ascii :=
  if Ascii.eqb c "n"%char then "010"%char
  else if Ascii.eqb c "t"%char then "009"%char
  else c.

(** A scanner for the body of a string literal, started after the opening
    quote: the text of the literal and what follows its closing quote, or
    [None] when the literal is not closed.  A backslash takes the next
    character with it; the first double quote that is not escaped closes the
    literal.  (Raw control characters are not looked at.) *)
Fixpoint scan_literal (escaped : bool) (s : string) : option (string * string) :=
  match s with
  | EmptyString => None
  | String c s' =>
      if escaped then
        option_map (fun r => (String (unescape c) (fst r), snd r))
                   (scan_literal false s')
      else if Ascii.eqb c BACKSLASH then scan_literal true s'
      else if Ascii.eqb c DQUOTE then Some (EmptyString, s')
      else option_map (fun r => (String c (fst r), snd r))
                      (scan_literal false s')
  end.

(** ** Floats that [round] accepts *)

Definition is_finite (x : spec_float) : bool :=
  match x with
  | S754_zero _ | S754_finite _ _ _ => true
  | _ => false
  end.

(** [width * (src_h / src_w) / cell_aspect], as the entry point evaluates
    it. *)
Definition height_quotient (src_w src_h width : Z) (cell_aspect : spec_float)
  : result spec_float :=
  rbind (Py.int_truediv src_h src_w) (fun aspect_ratio =>
  rbind (Py.int_to_float width) (fun fwidth =>
  Py.float_truediv (F64.mul fwidth aspect_ratio) cell_aspect)).

(** ** A demonstration platform

    A small file system and a stand-in imaging library (a resize that copies
    when the size is unchanged, as the library's does, and samples the nearest
    neighbour otherwise; filters that copy), for running the pipeline on
    examples. *)

Definition RED : pixel := (255, 0, 0).

Definition red2x2 : Image := mkImage 2 2 [RED; RED; RED; RED].

Definition nearest {A : Type} (default : A) (sw sh : Z) (px : list A)
  (w h : Z) : list A :=
  flat_map
    (fun y =>
       map (fun x => nth (Z.to_nat ((y * sh / h) * sw + x * sw / w)) px default)
           (range 0 w 1))
    (range 0 h 1).

Definition demo_resize (img : Image) (w h : Z) (k : Resampling) : result Image :=
  if (w =? im_w img) && (h =? im_h img) then inr img
  else if (w <=? 0) || (h <=? 0) then
    inl (Exn "ValueError" "height and width must be > 0")
  else inr (mkImage w h (nearest (0, 0, 0) (im_w img) (im_h img) (im_px img) w h)).

Definition demo_resize_F (img : ImageF) (w h : Z) (k : Resampling)
  : result ImageF :=
  if (w =? imf_w img) && (h =? imf_h img) then inr img
  else if (w <=? 0) || (h <=? 0) then
    inl (Exn "ValueError" "height and width must be > 0")
  else inr (mkImageF w h
              (nearest (S754_zero false) (imf_w img) (imf_h img) (imf_px img) w h)).

Definition demo_open (path : string) : result Image :=
  if String.eqb path "red.png" then inr red2x2
  else inl (Exn "UnidentifiedImageError"
              ("cannot identify image file '" ++ path ++ "'")).

Definition DemoPlatform : Platform :=
  {| os_path_exists :=
       fun p => String.eqb p "red.png" || String.eqb p "broken.png";
     Image_open := demo_open;
     Image_resize := demo_resize;
     ImageF_resize := demo_resize_F;
     MedianFilter := fun _ img => inr img;
     Color_enhance := fun img _ => inr img;
     Contrast_enhance := fun img _ => inr img;
     UnsharpMask := fun _ img => inr img;
     float_str := fun _ => "1.0";
     io_error := fun _ _ => None |}.

(** The arguments of the end-to-end scenario: width 2, half-block mode, all
    optional filters off, everything else at its default. *)
Definition scenario_args (path : string) (method : string) : Args :=
  mkArgs path 2 None "display_image" true true FULL_BLOCK true "auto"
         method "none" 0 F64.one F64.one (F64.lit 2 1).

(** A platform whose disk fills up: the write of the text that opens the
    Verilog task (the ninth of a file) is refused. *)
Definition FullDiskPlatform : Platform :=
  {| os_path_exists := @os_path_exists DemoPlatform;
     Image_open := @Image_open DemoPlatform;
     Image_resize := @Image_resize DemoPlatform;
     ImageF_resize := @ImageF_resize DemoPlatform;
     MedianFilter := @MedianFilter DemoPlatform;
     Color_enhance := @Color_enhance DemoPlatform;
     Contrast_enhance := @Contrast_enhance DemoPlatform;
     UnsharpMask := @UnsharpMask DemoPlatform;
     float_str := @float_str DemoPlatform;
     io_error := fun _ ev =>
       match ev with
       | Ev_write _ text =>
           if String.prefix "task " text
           then Some (Exn "OSError" "[Errno 28] No space left on device")
           else None
       | _ => None
       end |}.

(** The namespace of a command line that names the image and nothing else:
    every option at the default [build_argparser] gives it. *)
Definition default_namespace (image : string) : Namespace :=
  mkNamespace image 60 None "display_image" "auto" false false false false
              FULL_BLOCK (F64.lit 2 1) "linear_bicubic" "light" 0
              F64.one F64.one.

(** A parser for the demonstrations: it accepts one positional argument,
    shows its help on [--help] and rejects everything else. *)
Definition DemoParser : ArgumentParser :=
  {| parse_args := fun argv =>
       match argv with
       | [arg] =>
           if String.eqb arg "--help"
           then SystemExit 0 "usage: pic_to_ansi.py [-h] image"
           else Parsed (default_namespace arg)
       | _ => SystemExit 2 "usage: pic_to_ansi.py [-h] image"
       end |}.

(** The smallest positive [float]: [5e-324]. *)
Definition smallest_subnormal : spec_float := S754_finite false 1 (-1074).

(** [0.0 < x] on floats. *)
Definition positive_float (x : spec_float) : bool := SFltb (S754_zero false) x.

(** ** Silent computations *)

(** A computation that writes nothing: whatever trace it starts from, all it
    adds are calls into the imaging library. *)
Definition only_calls {A : Type} (m : M A) : Prop :=
  forall t : list event,
    exists calls : list call, fst (m t) = (t ++ map Ev_call calls)%list.

(** The cell of the scenario: pure red over pure red, upper-half glyph, CSI
    enabled. *)
Definition red_cell : string := ansi_fg_bg RED RED true true.


(** ** Traces and texts *)

(** [m] only ever appends to the trace, and every event it appends
    satisfies [P]. *)
Definition emits {A : Type} (P : event -> Prop) (m : M A) : Prop :=
  forall t : list event,
    exists evs : list event, fst (m t) = (t ++ evs)%list /\ Forall P evs.

(** [m] can return the value [a]. *)
Definition returns {A : Type} (m : M A) (a : A) : Prop :=
  exists t t' : list event, m t = (t', inr a).

(** The number of occurrences of a character. *)
Fixpoint count_char (c : ascii) (s : string) : nat :=
  match s with
  | EmptyString => O
  | String a s' => ((if Ascii.eqb a c then 1 else 0) + count_char c s')%nat
  end.

Definition ESC : ascii := ascii_of_nat 27.

(** The characters [str] uses for an [int]. *)
Definition digit_or_minus (c : ascii) : bool :=
  existsb (Ascii.eqb c)
    ["0"; "1"; "2"; "3"; "4"; "5"; "6"; "7"; "8"; "9"; "-"]%char.

(** A text the escaping has nothing to do on. *)
Definition plain (s : string) : Prop :=
  count_char BACKSLASH s = O /\ count_char DQUOTE s = O.

(** An image whose pixel list has the length its size announces. *)
Definition well_formed (img : Image) : Prop :=
  0 <= im_w img /\ 0 <= im_h img
  /\ Z.of_nat (List.length (im_px img)) = im_w img * im_h img.

Definition WARNING : string :=
  "Warning: width should be in 1-200; value has been clamped.".

(** What [main] may ask of the imaging library. *)
Definition library_request_ok (no_half_block : bool) (ev : event) : Prop :=
  match ev with
  | Ev_call (Call_resize w h _) | Ev_call (Call_resize_F w h _) =>
      1 <= w <= 200 /\ 1 <= h /\ (no_half_block = false -> Z.even h = true)
  | Ev_call (Call_MedianFilter size) => size = 3 \/ size = 5
  | Ev_call (Call_UnsharpMask p) =>
      p = params_light \/ p = params_medium \/ p = params_strong
  | _ => True
  end.

(** What [main] may print: a printed line is one of its three reports, and
    the parser has written nothing. *)
Definition report_only (ev : event) : Prop :=
  match ev with
  | Ev_print text =>
      text = WARNING
      \/ String.prefix "Error" text = true
      \/ String.prefix "Wrote output file: " text = true
  | Ev_argparse _ => False
  | _ => True
  end.

Definition main_event_ok (no_half_block : bool) (ev : event) : Prop :=
  library_request_ok no_half_block ev /\ report_only ev.

(** Arguments that write the scenario to a file. *)
Definition file_args (output : string) : Args :=
  mkArgs "red.png" 2 (Some output) "display_image" true true FULL_BLOCK true
         "auto" "bicubic" "none" 0 F64.one F64.one (F64.lit 2 1).

(** The texts an output file receives, one per [f.write] and in their order:
    for Verilog the eight comment lines of the header, the opening of the
    task, one indented statement per rendered line and the closing of the
    task; for ANSI the rendered lines, each with its newline. *)
Definition file_texts {PF : Platform} (a : Args) (src_w src_h out_h_chars : Z)
  (ansi_lines : list string) : list string :=
  let final_format := resolve_output_format (output_format a) (output_file a) in
  if String.eqb final_format "verilog" then
    List.app
      [ RULE ++ NL;
        "// Auto-generated image display code - "
          ++ OsPath.basename (image_path a) ++ NL;
        "// Source size: " ++ PyStr.of_int src_w ++ "x"
          ++ PyStr.of_int src_h ++ NL;
        "// Output size: " ++ PyStr.of_int (width a) ++ "x"
          ++ PyStr.of_int out_h_chars ++ NL;
        "// Output format: " ++ final_format ++ NL;
        "// Options: resize_method=" ++ resize_method a
          ++ " sharpen=" ++ sharpen a ++ NL;
        "//          denoise=" ++ PyStr.of_int (denoise a)
          ++ " saturation=" ++ float_str (saturation a)
          ++ " contrast=" ++ float_str (contrast a) ++ NL;
        RULE ++ NL ++ NL;
        "task " ++ module_name a ++ ";" ++ NL ++ "begin" ++ NL ]
      (List.app
         (map (fun line => "  " ++ display_statement line ++ NL) ansi_lines)
         [ "end" ++ NL ++ "endtask" ++ NL ])
  else map (fun line => line ++ NL) ansi_lines.

(** ** The order of the pipeline *)

(** The step of [image_to_verilog_display] a library call belongs to. *)
Definition stage_rank (c : call) : Z :=
  match c with
  | Call_open _ => 0
  | Call_resize _ _ _ | Call_resize_F _ _ _ => 1
  | Call_MedianFilter _ => 2
  | Call_Color _ => 3
  | Call_Contrast _ => 4
  | Call_UnsharpMask _ => 5
  end.

(** [c1] may precede [c2]: it belongs to an earlier step, or both are
    resize requests. *)
Definition stage_before (c1 c2 : call) : Prop :=
  stage_rank c1 < stage_rank c2 \/ (stage_rank c1 = 1 /\ stage_rank c2 = 1).

(** A computation whose library calls come in pipeline order and belong to
    the steps [lo] to [hi]. *)
Definition in_stage_order {A : Type} (lo hi : Z) (m : M A) : Prop :=
  forall t : list event,
    exists calls : list call,
      fst (m t) = (t ++ map Ev_call calls)%list
      /\ StronglySorted stage_before calls
      /\ Forall (fun c => lo <= stage_rank c <= hi) calls.

(** ** Error reports *)

(** An event that reports no error: not a line starting with [Error], not a
    traceback. *)
Definition quiet (ev : event) : Prop :=
  match ev with
  | Ev_print text => String.prefix "Error" text = false
  | Ev_traceback _ => False
  | _ => True
  end.

(** A printed line starting with [Error]. *)
Definition error_report (ev : event) : Prop :=
  match ev with
  | Ev_print text => String.prefix "Error" text = true
  | _ => False
  end.

(** * Theorems *)

(** ** Facts about [float32] values *)

Lemma digits2_pos_size (m : positive) : digits2_pos m = Pos.size m.
Proof. induction m; simpl; congruence. Qed.

Lemma digits2_pos_bounds (m : positive) :
  2 ^ (Z.pos (digits2_pos m) - 1) <= Z.pos m < 2 ^ Z.pos (digits2_pos m).
Proof.
  rewrite digits2_pos_size. split.
  - pose proof (Pos.size_le m) as H.
    assert (Hz : (Z.pos (2 ^ Pos.size m) <= Z.pos m~0)%Z) by exact H.
    rewrite Pos2Z.inj_pow in Hz.
    set (s := Z.pos (Pos.size m)) in *.
    assert (Hs : 2 ^ s = 2 * 2 ^ (s - 1)).
    { rewrite <- Z.pow_succ_r by (unfold s; lia). f_equal. lia. }
    rewrite Hs in Hz. lia.
  - pose proof (Pos.size_gt m) as H.
    assert (Hz : (Z.pos m < Z.pos (2 ^ Pos.size m))%Z) by exact H.
    now rewrite Pos2Z.inj_pow in Hz.
Qed.

Lemma bounded32 (m : positive) (e : Z) :
  bounded F32.prec F32.emax m e = true ->
  -149 <= e <= 104 /\ Z.pos m < 2 ^ 24 /\ (-149 < e -> 2 ^ 23 <= Z.pos m).
Proof.
  unfold bounded, canonical_mantissa, fexp, emin, F32.prec, F32.emax.
  intros H. apply andb_prop in H. destruct H as [Hc He].
  apply Z.eqb_eq in Hc. apply Z.leb_le in He.
  pose proof (digits2_pos_bounds m) as [Hlo Hhi].
  assert (Hd : Z.pos (digits2_pos m) <= 24) by lia.
  repeat split; try lia.
  - eapply Z.lt_le_trans; [exact Hhi|]. apply Z.pow_le_mono_r; lia.
  - intros Hgt. assert (Z.pos (digits2_pos m) = 24) by lia.
    replace 23 with (Z.pos (digits2_pos m) - 1) by lia. exact Hlo.
Qed.

(** Powers of two among the rationals. *)
Lemma pow2_pos (e : Z) : (0 < 2 ^ e)%Q.
Proof. apply Qpower_0_lt. reflexivity. Qed.

Lemma pow2_add (a b : Z) : (2 ^ (a + b) == 2 ^ a * 2 ^ b)%Q.
Proof. apply Qpower_plus. discriminate. Qed.

Lemma pow2_le (a b : Z) : a <= b -> (2 ^ a <= 2 ^ b)%Q.
Proof. intros H. apply Qpower_le_compat_l; [exact H | discriminate]. Qed.

Lemma pow2_inject (n : Z) : 0 <= n -> (inject_Z (2 ^ n) == 2 ^ n)%Q.
Proof. intros H. now rewrite Zpower_Qpower. Qed.

Lemma inject_lt_pow2 (m n : Z) : 0 <= n -> m < 2 ^ n -> (inject_Z m < 2 ^ n)%Q.
Proof.
  intros Hn H. rewrite <- pow2_inject by exact Hn. now rewrite <- Zlt_Qlt.
Qed.

Lemma inject_ge_pow2 (m n : Z) : 0 <= n -> 2 ^ n <= m -> (2 ^ n <= inject_Z m)%Q.
Proof.
  intros Hn H. rewrite <- pow2_inject by exact Hn. now rewrite <- Zle_Qle.
Qed.

Lemma F2Q_pos_finite (m : positive) (e : Z) :
  (F2Q (S754_finite false m e) == inject_Z (Z.pos m) * 2 ^ e)%Q.
Proof. unfold F2Q. ring. Qed.

(** On positive canonical floats [<=] agrees with the order of their
    values. *)
Lemma leb_sound (a b : spec_float) :
  pos_finite a = true -> pos_finite b = true ->
  F32.leb a b = true -> (F2Q a <= F2Q b)%Q.
Proof.
  destruct a as [| | |[|] ma ea]; try discriminate.
  destruct b as [| | |[|] mb eb]; try discriminate.
  unfold pos_finite, F32.valid, valid_binary. intros Ha Hb.
  apply bounded32 in Ha. apply bounded32 in Hb.
  destruct Ha as (Hea & Hma & _). destruct Hb as (Heb & _ & Hmb).
  rewrite !F2Q_pos_finite.
  unfold F32.leb, SFleb, SFcompare.
  destruct (Z.compare_spec ea eb) as [Heq | Hlt | Hgt].
  - subst eb. intros H.
    apply Qmult_le_compat_r; [| apply Qlt_le_weak, pow2_pos].
    rewrite <- Zle_Qle.
    change (Pos.compare_cont Eq ma mb) with (Pos.compare ma mb) in H.
    destruct (Pos.compare_spec ma mb); try discriminate; lia.
  - intros _.
    apply Qle_trans with (2 ^ 24 * 2 ^ ea)%Q.
    + apply Qmult_le_compat_r; [| apply Qlt_le_weak, pow2_pos].
      apply Qlt_le_weak, inject_lt_pow2; lia.
    + apply Qle_trans with (2 ^ 23 * 2 ^ eb)%Q.
      * rewrite <- !pow2_add. apply pow2_le. lia.
      * apply Qmult_le_compat_r; [| apply Qlt_le_weak, pow2_pos].
        apply inject_ge_pow2; [lia|]. apply Hmb. lia.
  - discriminate.
Qed.

(** Powers with a positive exponent are strictly increasing on the
    non-negative rationals. *)
Lemma Qpow_succ (a : Q) (n : positive) :
  (a ^ Z.pos (Pos.succ n) == a * a ^ Z.pos n)%Q.
Proof.
  rewrite Pos2Z.inj_succ. unfold Z.succ.
  rewrite Qpower_plus' by lia. change (a ^ 1)%Q with a. ring.
Qed.

Lemma Qpow_lt_mono (a b : Q) (n : positive) :
  (0 <= a)%Q -> (a < b)%Q -> (a ^ Z.pos n < b ^ Z.pos n)%Q.
Proof.
  intros Ha Hab. induction n as [|n IH] using Pos.peano_ind.
  - exact Hab.
  - rewrite !Qpow_succ. apply Qmult_lt_compat_nonneg.
    + split; assumption.
    + split; [apply Qpower_0_le; exact Ha | exact IH].
Qed.

Lemma Qpow_le_inv (a b : Q) (n : positive) :
  (0 <= b)%Q -> (a ^ Z.pos n <= b ^ Z.pos n)%Q -> (a <= b)%Q.
Proof.
  intros Hb H. destruct (Qlt_le_dec b a) as [Hlt | Hle]; [| exact Hle].
  exfalso. apply (Qpow_lt_mono b a n Hb) in Hlt.
  apply (Qlt_irrefl (a ^ Z.pos n)). eapply Qle_lt_trans; eassumption.
Qed.

Lemma Qpow_le_mono (a b : Q) (n : positive) :
  (0 <= a)%Q -> (a <= b)%Q -> (a ^ Z.pos n <= b ^ Z.pos n)%Q.
Proof.
  intros Ha Hab. destruct (Qlt_le_dec a b) as [Hlt | Hle].
  - apply Qlt_le_weak, Qpow_lt_mono; assumption.
  - assert (Heq : (a == b)%Q) by (apply Qle_antisym; assumption).
    rewrite Heq. apply Qle_refl.
Qed.

Lemma F2Q_positive (x : spec_float) : pos_finite x = true -> (0 < F2Q x)%Q.
Proof.
  destruct x as [| | |[|] m e]; try discriminate. intros _.
  rewrite F2Q_pos_finite. apply Qmult_lt_0_compat; [reflexivity | apply pow2_pos].
Qed.

Lemma Zrange_In (lo hi m : Z) : lo <= m <= hi -> In m (Zrange lo hi).
Proof.
  intros H. unfold Zrange. apply in_map_iff.
  exists (Z.to_nat (m - lo)). split; [lia|]. apply in_seq. lia.
Qed.

(** [a * 2^e1 < b * 2^e2] from the sizes of [a] and [b]. *)
Lemma dyadic_lt (a b k l e1 e2 : Z) :
  0 <= k -> 0 <= l -> a < 2 ^ k -> 2 ^ l <= b -> k + e1 <= l + e2 ->
  (inject_Z a * 2 ^ e1 < inject_Z b * 2 ^ e2)%Q.
Proof.
  intros Hk Hl Ha Hb He.
  apply Qlt_le_trans with (2 ^ k * 2 ^ e1)%Q.
  - apply Qmult_lt_compat_r; [apply pow2_pos | apply inject_lt_pow2; assumption].
  - apply Qle_trans with (2 ^ l * 2 ^ e2)%Q.
    + rewrite <- !pow2_add. apply pow2_le. exact He.
    + apply Qmult_le_compat_r; [| apply Qlt_le_weak, pow2_pos].
      apply inject_ge_pow2; assumption.
Qed.

(** The enumeration is exhaustive: a positive canonical float within
    [delta] of [x] is one of the candidates. *)
Lemma cand_check_sound (x z : spec_float) (P : spec_float -> bool) :
  cand_check x P = true ->
  pos_finite z = true ->
  ((1 - delta) * F2Q x <= F2Q z)%Q ->
  (F2Q z <= (1 + delta) * F2Q x)%Q ->
  P z = true.
Proof.
  destruct x as [| | |[|] mx ex]; try discriminate.
  destruct z as [| | |[|] mz ez]; try discriminate.
  unfold cand_check, pos_finite, F32.valid, valid_binary.
  intros Hc Hz Hlo Hhi.
  apply andb_prop in Hc. destruct Hc as [Hc Hall].
  apply andb_prop in Hc. destruct Hc as [Hdx Hex].
  apply Z.eqb_eq in Hdx. apply Z.leb_le in Hex.
  apply bounded32 in Hz. destruct Hz as (Hez & Hmz & Hnz).
  pose proof (digits2_pos_bounds mx) as [Hx1 Hx2]. rewrite Hdx in Hx1, Hx2.
  change (24 - 1) with 23 in Hx1.
  rewrite !F2Q_pos_finite in Hlo, Hhi.
  set (a := inject_Z (Z.pos mz)) in *. set (b := inject_Z (Z.pos mx)) in *.
  assert (Hb0 : (0 < b)%Q) by (unfold b; rewrite <- (Zlt_Qlt 0); lia).
  assert (Ha0 : (0 < a)%Q) by (unfold a; rewrite <- (Zlt_Qlt 0); lia).
  pose proof (pow2_pos ex) as Htx. pose proof (pow2_pos ez) as Htz.
  (* the exponent of [z] is within one of the exponent of [x] *)
  assert (Hup : ez <= ex + 1).
  { destruct (Z_le_gt_dec ez (ex + 1)) as [H | H]; [exact H | exfalso].
    assert (Hlt : (inject_Z (2 * Z.pos mx) * 2 ^ ex < a * 2 ^ ez)%Q).
    { apply (dyadic_lt _ _ 25 23); try lia; apply Hnz; lia. }
    assert (Hle : ((1 + delta) * (b * 2 ^ ex) <= inject_Z (2 * Z.pos mx) * 2 ^ ex)%Q).
    { rewrite inject_Z_mult. fold b. rewrite Qmult_assoc.
      apply Qmult_le_compat_r; [| apply Qlt_le_weak; exact Htx].
      unfold delta. change (inject_Z 2) with 2%Q. lra. }
    apply (Qlt_irrefl (a * 2 ^ ez)).
    eapply Qle_lt_trans; [exact Hhi|]. eapply Qle_lt_trans; [exact Hle | exact Hlt]. }
  assert (Hdn : ex - 1 <= ez).
  { destruct (Z_le_gt_dec (ex - 1) ez) as [H | H]; [exact H | exfalso].
    assert (Hlt : (a * 2 ^ ez < b * 2 ^ (ex + -1))%Q).
    { apply (dyadic_lt _ _ 24 23); lia. }
    rewrite pow2_add in Hlt. change (2 ^ (-1))%Q with (1 # 2)%Q in Hlt.
    assert (Hle : (b * (2 ^ ex * (1 # 2)) <= (1 - delta) * (b * 2 ^ ex))%Q).
    { apply Qle_trans with ((1 # 2) * b * 2 ^ ex)%Q;
        [apply Qle_lteq; right; ring |].
      rewrite (Qmult_assoc (1 - delta)).
      apply Qmult_le_compat_r; [| apply Qlt_le_weak; exact Htx].
      unfold delta. lra. }
    apply (Qlt_irrefl (a * 2 ^ ez)).
    eapply Qlt_le_trans; [exact Hlt|]. eapply Qle_trans; [exact Hle | exact Hlo]. }
  assert (Hnorm : 2 ^ 23 <= Z.pos mz) by (apply Hnz; lia).
  assert (Hd : In (ez - ex) [-1; 0; 1]).
  { simpl. lia. }
  rewrite forallb_forall in Hall. specialize (Hall _ Hd). cbv zeta in Hall.
  rewrite forallb_forall in Hall.
  replace (ex + (ez - ex)) with ez in Hall by lia.
  assert (Hcancel : (2 ^ ez == 2 ^ ex * 2 ^ (ez - ex))%Q).
  { rewrite <- pow2_add. now replace (ex + (ez - ex)) with ez by lia. }
  assert (Hinv : (2 ^ (ez - ex) * 2 ^ (- (ez - ex)) == 1)%Q).
  { rewrite <- pow2_add. now replace (ez - ex + - (ez - ex)) with 0 by lia. }
  set (d := ez - ex) in *.
  pose proof (pow2_pos d) as Htd. pose proof (pow2_pos (- d)) as Htd'.
  set (u := (2 ^ d)%Q) in *. set (v := (2 ^ (- d))%Q) in *.
  rewrite Hcancel in Hlo, Hhi.
  assert (Hlo' : ((1 - delta) * b * v <= a)%Q).
  { assert (H1 : ((1 - delta) * b <= a * u)%Q).
    { apply (Qmult_le_r _ _ (2 ^ ex)%Q Htx).
      eapply Qle_trans; [| eapply Qle_trans; [exact Hlo|]].
      - apply Qle_lteq; right; ring.
      - apply Qle_lteq; right; ring. }
    apply (Qmult_le_compat_r _ _ v) in H1; [| apply Qlt_le_weak; exact Htd'].
    eapply Qle_trans; [exact H1|].
    rewrite <- Qmult_assoc, Hinv. apply Qle_lteq; right; ring. }
  assert (Hhi' : (a <= (1 + delta) * b * v)%Q).
  { assert (H1 : (a * u <= (1 + delta) * b)%Q).
    { apply (Qmult_le_r _ _ (2 ^ ex)%Q Htx).
      eapply Qle_trans; [| eapply Qle_trans; [exact Hhi|]].
      - apply Qle_lteq; right; ring.
      - apply Qle_lteq; right; ring. }
    apply (Qmult_le_compat_r _ _ v) in H1; [| apply Qlt_le_weak; exact Htd'].
    eapply Qle_trans; [| exact H1].
    rewrite <- Qmult_assoc, Hinv. apply Qle_lteq; right; ring. }
  apply Qfloor_resp_le in Hlo', Hhi'. unfold a in Hlo', Hhi'.
  rewrite Qfloor_Z in Hlo', Hhi'.
  specialize (Hall (Z.pos mz)). simpl Z.to_pos in Hall. apply Hall.
  apply Zrange_In. change 8388608 with (2 ^ 23). change 16777215 with (2 ^ 24 - 1).
  split; [apply Z.max_lub | apply Z.min_glb]; lia.
Qed.


(** ** The colour-space converter *)

Section ConverterFacts.
Context {NP : NumpyLib}.

(** Bytes 0..10 lie on the linear segment: the round trip is evaluated. *)
Lemma linear_bytes_checked :
  forallb (fun c => to_srgb (to_linear c) =? c) (Zrange 0 10) = true.
Proof. vm_compute. reflexivity. Qed.

(** Bytes 11..255 take the power branch: every candidate is evaluated. *)
Lemma power_bytes_checked : forallb check_byte (Zrange 11 255) = true.
Proof. vm_compute. reflexivity. Qed.

Lemma eps_delta_hi : ((1 + eps) ^ 12 * (1 + eps) ^ 5 <= (1 + delta) ^ 12)%Q.
Proof. apply Qle_bool_imp_le. vm_compute. reflexivity. Qed.

Lemma eps_delta_lo : ((1 - delta) ^ 12 <= (1 - eps) ^ 12 * (1 - eps) ^ 5)%Q.
Proof. apply Qle_bool_imp_le. vm_compute. reflexivity. Qed.

(** Two accurate powers in a row, by 12/5 and then by 5/12, come back to
    within [delta] of where they started. *)
Lemma pow_close_near (x y z : spec_float) :
  (0 < F2Q x)%Q ->
  pow_close 12 5 x y = true -> pow_close 5 12 y z = true ->
  pos_finite z = true
  /\ ((1 - delta) * F2Q x <= F2Q z)%Q /\ (F2Q z <= (1 + delta) * F2Q x)%Q.
Proof.
  unfold pow_close. intros HX H1 H2.
  apply andb_prop in H1. destruct H1 as [H1 H1hi].
  apply andb_prop in H1. destruct H1 as [Hy H1lo].
  apply andb_prop in H2. destruct H2 as [H2 H2hi].
  apply andb_prop in H2. destruct H2 as [Hz H2lo].
  apply Qle_bool_imp_le in H1lo, H1hi, H2lo, H2hi.
  pose proof (F2Q_positive _ Hz) as HZ.
  set (X := F2Q x) in *. set (Y := F2Q y) in *. set (Z := F2Q z) in *.
  assert (He12 : (0 <= (1 + eps) ^ 12)%Q) by (apply Qpower_0_le; unfold eps; lra).
  assert (He12' : (0 <= (1 - eps) ^ 12)%Q) by (apply Qpower_0_le; unfold eps; lra).
  assert (HX12 : (0 <= X ^ 12)%Q) by (apply Qpower_0_le, Qlt_le_weak, HX).
  split; [exact Hz | split].
  - apply Qpow_le_inv with (n := 12%positive); [apply Qlt_le_weak, HZ |].
    rewrite Qmult_power.
    eapply Qle_trans; [| exact H2lo].
    eapply Qle_trans; [apply Qmult_le_compat_r; [exact eps_delta_lo | exact HX12] |].
    rewrite <- Qmult_assoc.
    rewrite <- (Qmult_le_l _ _ ((1 - eps) ^ 12)%Q) in H1lo
      by (apply Qpower_0_lt; unfold eps; lra).
    exact H1lo.
  - apply Qpow_le_inv with (n := 12%positive).
    + apply Qmult_le_0_compat; [unfold delta; lra | apply Qlt_le_weak, HX].
    + rewrite Qmult_power.
      eapply Qle_trans; [exact H2hi |].
      eapply Qle_trans; [| apply Qmult_le_compat_r; [exact eps_delta_hi | exact HX12]].
      rewrite <- Qmult_assoc.
      rewrite <- (Qmult_le_l _ _ ((1 + eps) ^ 12)%Q) in H1hi
        by (apply Qpower_0_lt; unfold eps; lra).
      exact H1hi.
Qed.

(** The round trip, one byte at a time. *)
Lemma roundtrip_byte (c : Z) :
  0 <= c <= 255 -> powf_accurate_at c = true -> to_srgb (to_linear c) = c.
Proof.
  intros Hc Hacc.
  destruct (Z_le_gt_dec c 10) as [Hlow | Hhigh].
  - pose proof linear_bytes_checked as H. rewrite forallb_forall in H.
    apply Z.eqb_eq, H, Zrange_In. lia.
  - pose proof power_bytes_checked as H. rewrite forallb_forall in H.
    specialize (H c (Zrange_In 11 255 c ltac:(lia))).
    unfold check_byte in H. cbv zeta in H.
    unfold powf_accurate_at in Hacc. cbv zeta in Hacc.
    unfold to_linear. cbv zeta.
    set (c' := F32.div (F32.of_Z c) K.c255_0) in *.
    apply andb_prop in H. destruct H as [H Hcand].
    apply andb_prop in H. destruct H as [Hbranch Hthr].
    apply negb_true_iff in Hbranch. rewrite Hbranch in *. simpl in Hacc.
    set (x := pow_base c') in *.
    set (y := powf x K.c2_4) in *.
    apply andb_prop in Hacc. destruct Hacc as [Hxy Hyz].
    assert (HX : (0 < F2Q x)%Q).
    { destruct x as [| | |[|] mx ex]; try discriminate.
      rewrite F2Q_pos_finite. apply Qmult_lt_0_compat; [reflexivity | apply pow2_pos]. }
    assert (Hy : pos_finite y = true).
    { unfold pow_close in Hxy. apply andb_prop in Hxy. destruct Hxy as [Hxy _].
      apply andb_prop in Hxy. tauto. }
    assert (Hleb : F32.leb y K.c0_0031308 = false).
    { destruct (F32.leb y K.c0_0031308) eqn:E; [exfalso | reflexivity].
      apply leb_sound in E; [| exact Hy | reflexivity].
      apply (Qpow_le_mono _ _ 5) in E; [| apply Qlt_le_weak, F2Q_positive, Hy].
      unfold Qltb in Hthr. apply negb_true_iff in Hthr.
      assert (Hle : Qle_bool ((1 - eps) ^ 5 * F2Q x ^ 12) (F2Q K.c0_0031308 ^ 5) = true).
      { apply Qle_bool_iff. eapply Qle_trans; [| exact E].
        unfold pow_close in Hxy. apply andb_prop in Hxy. destruct Hxy as [Hxy _].
        apply andb_prop in Hxy. destruct Hxy as [_ Hxy].
        apply Qle_bool_imp_le in Hxy. exact Hxy. }
      congruence. }
    unfold to_srgb. rewrite Hleb.
    destruct (pow_close_near x y _ HX Hxy Hyz) as (Hz & Hlo & Hhi).
    apply Z.eqb_eq.
    exact (cand_check_sound x _ (fun z => post z =? c) Hcand Hz Hlo Hhi).
Qed.

(** The two masked assignments of the converter amount to a choice made
    element by element, whatever the fresh array held. *)
Lemma masked_assign {A B : Type} (p : A -> bool) (f g : A -> B) (c : list A) :
  forall out : list B,
    List.length out = List.length c ->
    Np.mask_set
      (Np.mask_set out (map p c) (map f (Np.mask_get c (map p c))))
      (map negb (map p c))
      (map g (Np.mask_get c (map negb (map p c))))
    = map (fun x => if p x then f x else g x) c.
Proof.
  induction c as [| x c IH]; intros [| o out] Hlen; try discriminate.
  - reflexivity.
  - simpl in Hlen. injection Hlen as Hlen. simpl.
    destruct (p x); simpl; f_equal; apply IH; exact Hlen.
Qed.

Lemma empty_like_length (c : list spec_float) :
  List.length (empty_like c) = List.length c.
Proof. unfold empty_like. now rewrite length_map, length_seq. Qed.

Lemma srgb_to_linear_map (arr_u8 : list Z) :
  srgb_to_linear arr_u8 = map to_linear arr_u8.
Proof.
  unfold srgb_to_linear. cbv zeta.
  rewrite masked_assign by apply empty_like_length.
  rewrite map_map. reflexivity.
Qed.

Lemma linear_to_srgb_map (arr_f : list spec_float) :
  linear_to_srgb arr_f = map to_srgb arr_f.
Proof.
  unfold linear_to_srgb. cbv zeta.
  rewrite masked_assign by apply empty_like_length.
  rewrite map_map. reflexivity.
Qed.

End ConverterFacts.

(** C1.  Round trip of the colour-space converter: for every array of bytes
    (values 0..255), converting to linear light and back with
    [linear_to_srgb (srgb_to_linear arr)] reproduces the array exactly, under
    the rounding rule of the code (scale by 255, add 0.5, clamp to [0,255],
    truncate).  The [float32] power function is numpy's; it is required to be
    accurate to the relative error [eps] at the bytes of the array. *)
Theorem srgb_roundtrip_exact (NP : NumpyLib) (arr_u8 : list Z) :
  Forall (fun c => 0 <= c <= 255) arr_u8 ->
  Forall (fun c => powf_accurate_at c = true) arr_u8 ->
  linear_to_srgb (srgb_to_linear arr_u8) = arr_u8.
Proof.
  intros Hbytes Hacc.
  rewrite srgb_to_linear_map, linear_to_srgb_map, map_map.
  induction arr_u8 as [| c arr IH]; [reflexivity |].
  inversion Hbytes as [| ? ? Hc Hbytes']; subst.
  inversion Hacc as [| ? ? Ha Hacc']; subst.
  simpl. rewrite (roundtrip_byte c Hc Ha). f_equal. apply IH; assumption.
Qed.

(** The reference power function is accurate at these bytes. *)
Lemma srgb_roundtrip_exact_witness :
  Forall (fun c => 0 <= c <= 255) [0; 10; 11; 128; 255]
  /\ Forall (fun c => @powf_accurate_at RefNumpy c = true) [0; 10; 11; 128; 255]
  /\ @linear_to_srgb RefNumpy (@srgb_to_linear RefNumpy [0; 10; 11; 128; 255])
     = [0; 10; 11; 128; 255].
Proof.
  assert (H1 : Forall (fun c => 0 <= c <= 255) [0; 10; 11; 128; 255])
    by (repeat constructor; lia).
  assert (H2 : Forall (fun c => @powf_accurate_at RefNumpy c = true)
                      [0; 10; 11; 128; 255])
    by (repeat constructor; vm_compute; reflexivity).
  split; [exact H1 | split; [exact H2 |]].
  exact (srgb_roundtrip_exact RefNumpy _ H1 H2).
Defined.

(** C2.  The converter computes the piecewise transfer functions of the
    specification, sample by sample: [srgb_to_linear] maps every byte [c] to
    [to_linear c] ([c' = c/255]; [c'/12.92] when [c' <= 0.04045], else
    [((c' + 0.055)/1.055)^2.4]) and [linear_to_srgb] maps every float [c] to
    [to_srgb c] ([12.92*c] when [c <= 0.0031308], else
    [1.055*c^(1/2.4) - 0.055]; then scaled by 255, incremented by 0.5,
    clamped to [0,255] and truncated), in [float32] arithmetic and whatever
    the freshly allocated result arrays contained. *)
Theorem transfer_functions_piecewise (NP : NumpyLib) :
  (forall arr_u8 : list Z, srgb_to_linear arr_u8 = map to_linear arr_u8)
  /\ (forall arr_f : list spec_float, linear_to_srgb arr_f = map to_srgb arr_f).
Proof.
  split; [apply srgb_to_linear_map | apply linear_to_srgb_map].
Qed.

(** ** Target dimensions *)

Lemma round_of_finite (q : spec_float) :
  is_finite q = true -> exists n : Z, Py.round q = inr n.
Proof.
  destruct q as [s | s | | s m e]; try discriminate; intros _; simpl; eauto.
Qed.

Lemma target_height_chars_quotient (src_w src_h width : Z) (ca : spec_float) :
  target_height_chars src_w src_h width ca
  = rbind (height_quotient src_w src_h width ca) (fun q =>
    rbind (Py.round q) (fun n => inr (Z.max 1 n))).
Proof.
  unfold target_height_chars, height_quotient.
  destruct (Py.int_truediv src_h src_w) as [e | ar]; [reflexivity |].
  cbn [rbind].
  destruct (Py.int_to_float width) as [e | fw]; reflexivity.
Qed.

Lemma half_block_height (height_chars : Z) :
  target_h_px true height_chars = 2 * height_chars.
Proof.
  unfold target_h_px. cbv zeta.
  replace (height_chars * 2 mod 2) with 0 by (symmetry; apply Z_mod_mult).
  change (0 =? 1) with false. cbv iota. lia.
Qed.

(** C3 (as amended).  For every source image with positive dimensions, every
    requested width > 0 and every cell aspect > 0 for which the float quotient
    [q = width * (src_h / src_w) / cell_aspect] is finite, the target
    character height is [max 1 (round q)] ([round] being Python's, ties to
    even), and in half-block mode the target pixel height is twice that, hence
    even and at least 2. *)
Theorem target_dimensions (src_w src_h width : Z) (cell_aspect q : spec_float) :
  0 < src_w -> 0 < src_h -> 0 < width ->
  positive_float cell_aspect = true ->
  height_quotient src_w src_h width cell_aspect = inr q ->
  is_finite q = true ->
  exists n : Z,
    Py.round q = inr n
    /\ target_height_chars src_w src_h width cell_aspect = inr (Z.max 1 n)
    /\ target_h_px true (Z.max 1 n) = 2 * Z.max 1 n
    /\ Z.even (target_h_px true (Z.max 1 n)) = true
    /\ 2 <= target_h_px true (Z.max 1 n).
Proof.
  intros _ _ _ _ Hq Hfin.
  destruct (round_of_finite q Hfin) as [n Hn].
  exists n. rewrite target_height_chars_quotient, Hq. cbn [rbind].
  rewrite Hn. cbn [rbind]. rewrite half_block_height.
  repeat split; try reflexivity.
  - rewrite Z.even_mul. reflexivity.
  - lia.
Qed.

(** A 4:3 source at width 80 with the default cell aspect: 30 rows. *)
Lemma target_dimensions_witness :
  exists n : Z,
    Py.round (F64.of_Z 30) = inr n
    /\ target_height_chars 4 3 80 (F64.lit 2 1) = inr (Z.max 1 n)
    /\ target_h_px true (Z.max 1 n) = 2 * Z.max 1 n
    /\ Z.even (target_h_px true (Z.max 1 n)) = true
    /\ 2 <= target_h_px true (Z.max 1 n).
Proof.
  apply (target_dimensions 4 3 80 (F64.lit 2 1) (F64.of_Z 30));
    try lia; vm_compute; reflexivity.
Defined.

(** C3, the claim as stated fails: with a 1x1 source, width 1 and the cell
    aspect [5e-324] (positive), the quotient overflows to infinity, [round]
    raises [OverflowError] and no target height is computed. *)
Lemma target_dimensions_overflow :
  positive_float smallest_subnormal = true
  /\ F64.valid smallest_subnormal = true
  /\ target_height_chars 1 1 1 smallest_subnormal
     = inl (Exn "OverflowError" "cannot convert float infinity to integer")
  /\ ~ (exists height_chars : Z,
          target_height_chars 1 1 1 smallest_subnormal = inr height_chars).
Proof.
  repeat split; try (vm_compute; reflexivity).
  intros [hc H]. vm_compute in H. discriminate H.
Qed.

(** ** The cell encoder *)

Lemma append_assoc (a b c : string) : (a ++ b) ++ c = a ++ (b ++ c).
Proof. induction a as [| x a IH]; simpl; [reflexivity | now rewrite IH]. Qed.

(** C4.  The half-block cell encoder assigns the foreground true-colour
    sequence to the top pixel and the background sequence to the bottom pixel
    for every pair of colours, with either glyph and either prefix: the cell
    is the foreground sequence of [top], the background sequence of [bot],
    the chosen glyph and the reset sequence.  In particular, for
    top = (255,0,0), bottom = (0,0,255), CSI enabled and the upper-half glyph
    the cell is ESC[38;2;255;0;0m ESC[48;2;0;0;255m, the glyph, ESC[0m. *)
Theorem half_block_cell_fg_top_bg_bottom :
  (forall (top bot : pixel) (use_upper use_csi : bool),
      ansi_fg_bg top bot use_upper use_csi
      = sgr_fg (escape_prefix use_csi) top
        ++ sgr_bg (escape_prefix use_csi) bot
        ++ half_glyph use_upper
        ++ sgr_reset (escape_prefix use_csi))
  /\ ansi_fg_bg (255, 0, 0) (0, 0, 255) true true
     = PyStr.chr 27 ++ "[38;2;255;0;0m"
       ++ PyStr.chr 27 ++ "[48;2;0;0;255m"
       ++ "▀" ++ PyStr.chr 27 ++ "[0m".
Proof.
  split; [| reflexivity].
  intros [[rt gt] bt] [[rb gb] bb] use_upper use_csi.
  unfold ansi_fg_bg, sgr_fg, sgr_bg, sgr_reset, half_glyph, escape_prefix.
  set (pre := if use_csi then CSI else "[").
  set (ch := if use_upper then UPPER_HALF else LOWER_HALF).
  now rewrite !append_assoc.
Qed.

(** ** The filter chain *)

(** C5.  When saturation equals 1.0 and contrast equals 1.0 the colour stage
    is skipped: on every platform, for every image and after every trace, it
    returns the very image it was given and adds nothing to the trace, so
    neither enhancer of the imaging library is invoked (not even as an
    identity operation).  The same holds of [enhance_color_separation]
    itself. *)
Theorem colour_stage_skipped (PF : Platform) (img : Image)
  (saturation contrast : spec_float) (t : list event) :
  SFeqb saturation F64.one = true ->
  SFeqb contrast F64.one = true ->
  stage_colour img saturation contrast t = (t, inr img)
  /\ enhance_color_separation img saturation contrast t = (t, inr img).
Proof.
  intros Hs Hc.
  unfold stage_colour, enhance_color_separation, F64.neqb.
  rewrite Hs, Hc. simpl. split; reflexivity.
Qed.

(** On the demonstration platform. *)
Lemma colour_stage_skipped_witness :
  @stage_colour DemoPlatform red2x2 F64.one F64.one [] = ([], inr red2x2)
  /\ @enhance_color_separation DemoPlatform red2x2 F64.one F64.one []
     = ([], inr red2x2).
Proof.
  apply (colour_stage_skipped DemoPlatform red2x2 F64.one F64.one []);
    vm_compute; reflexivity.
Defined.

(** ** Escaping *)

Lemma escape_verilog_string_chars (text : string) :
  escape_verilog_string text = escape_chars text.
Proof.
  unfold escape_verilog_string.
  induction text as [| c text IH]; [reflexivity |].
  cbn [PyStr.replace escape_chars]. unfold escape_char.
  destruct (Ascii.eqb c BACKSLASH) eqn:Hb.
  - cbn. now rewrite IH.
  - cbn [PyStr.replace]. destruct (Ascii.eqb c DQUOTE) eqn:Hq.
    + cbn. now rewrite IH.
    + cbn. now rewrite IH.
Qed.

Lemma scan_escaped (text rest : string) :
  scan_literal false (escape_chars text ++ String DQUOTE rest)
  = Some (text, rest).
Proof.
  induction text as [| c text IH]; [reflexivity |].
  cbn [escape_chars]. unfold escape_char.
  destruct (Ascii.eqb c BACKSLASH) eqn:Hb.
  - apply Ascii.eqb_eq in Hb. subst c. cbn. rewrite IH. reflexivity.
  - destruct (Ascii.eqb c DQUOTE) eqn:Hq.
    + apply Ascii.eqb_eq in Hq. subst c. cbn. rewrite IH. reflexivity.
    + cbn [append scan_literal]. rewrite Hb, Hq, IH. reflexivity.
Qed.

(** C6.  The display-statement escaping replaces each backslash with two
    backslashes and each double quote with a backslash and a double quote,
    and changes nothing else; consequently the escaped line followed by the
    closing quote scans as one string literal that ends at that quote and
    stands for the original line, for every line, and so does the literal of
    the generated statement. *)
Theorem escaping_keeps_one_literal :
  (forall text : string, escape_verilog_string text = escape_chars text)
  /\ (forall text rest : string,
        scan_literal false (escape_verilog_string text ++ String DQUOTE rest)
        = Some (text, rest))
  /\ (forall line : string,
        exists body : string,
          display_statement line = "$display(" ++ String DQUOTE body
          /\ scan_literal false body = Some (line, ");")).
Proof.
  split; [exact escape_verilog_string_chars | split].
  - intros text rest. rewrite escape_verilog_string_chars. apply scan_escaped.
  - intros line. exists (escape_verilog_string line ++ String DQUOTE ");").
    split; [reflexivity |].
    rewrite escape_verilog_string_chars. apply scan_escaped.
Qed.

(** ** The output format *)

Lemma verilog_extension_lower (e : string) :
  In e VERILOG_EXTENSIONS -> PyStr.lower e = e.
Proof.
  unfold VERILOG_EXTENSIONS. simpl.
  intros [H | [H | [H | [H | []]]]]; subst e; reflexivity.
Qed.

Lemma verilog_extension_iff (ext : string) :
  existsb (String.eqb (PyStr.lower ext)) VERILOG_EXTENSIONS = true
  <-> exists e : string, In e VERILOG_EXTENSIONS /\ caseless_eq ext e.
Proof.
  rewrite existsb_exists. unfold caseless_eq.
  split; intros [e [Hin He]]; exists e; split; try exact Hin.
  - apply String.eqb_eq in He. now rewrite (verilog_extension_lower e Hin).
  - apply String.eqb_eq. now rewrite (verilog_extension_lower e Hin) in He.
Qed.

Lemma resolve_auto_unfold (output_file : option string) :
  resolve_output_format "auto" output_file
  = match output_file with
    | Some f =>
        if PyStr.truthy output_file
           && existsb (String.eqb (PyStr.lower (extension f))) VERILOG_EXTENSIONS
        then "verilog"
        else "ansi"
    | None => "ansi"
    end.
Proof. reflexivity. Qed.

Lemma extension_empty : extension EmptyString = EmptyString.
Proof. reflexivity. Qed.


Example resolve_output_format_examples :
  resolve_output_format "auto" (Some "out/tb.SV") = "verilog"
  /\ resolve_output_format "auto" (Some "image.Vh") = "verilog"
  /\ resolve_output_format "auto" (Some "image.ans") = "ansi"
  /\ resolve_output_format "auto" (Some ".sv") = "ansi"
  /\ resolve_output_format "auto" (Some "dir.v/plain") = "ansi".
Proof. repeat split; reflexivity. Qed.

(** ** The resampler *)

(** C10.  A method string other than the four documented ones raises nothing
    of its own: [resize_with_optimal_filter] resizes the byte image directly
    (gamma space) with the Lanczos kernel, exactly as the method ["lanczos"]
    does for the same image and target size; its result, failure included,
    is that of the library's Lanczos resize. *)
Theorem unknown_method_resizes_as_lanczos (NP : NumpyLib) (PF : Platform)
  (pil_img : Image) (w h : Z) (method : string) :
  method <> "linear_lanczos" -> method <> "linear_bicubic" ->
  method <> "lanczos" -> method <> "bicubic" ->
  resize_with_optimal_filter pil_img w h method
  = lib (Call_resize w h LANCZOS) (Image_resize pil_img w h LANCZOS)
  /\ resize_with_optimal_filter pil_img w h method
     = resize_with_optimal_filter pil_img w h "lanczos"
  /\ forall t : list event,
       resize_with_optimal_filter pil_img w h method t
       = ((t ++ [Ev_call (Call_resize w h LANCZOS)])%list,
          Image_resize pil_img w h LANCZOS).
Proof.
  intros H1 H2 H3 H4.
  apply String.eqb_neq in H1, H2, H3, H4.
  unfold resize_with_optimal_filter. rewrite H1, H2, H3, H4.
  repeat split; reflexivity.
Qed.

(** The method [nearest] is not one of the four. *)
Lemma unknown_method_resizes_as_lanczos_witness :
  @resize_with_optimal_filter RefNumpy DemoPlatform red2x2 4 2 "nearest"
  = lib (Call_resize 4 2 LANCZOS) (@Image_resize DemoPlatform red2x2 4 2 LANCZOS)
  /\ @resize_with_optimal_filter RefNumpy DemoPlatform red2x2 4 2 "nearest"
     = @resize_with_optimal_filter RefNumpy DemoPlatform red2x2 4 2 "lanczos"
  /\ forall t : list event,
       @resize_with_optimal_filter RefNumpy DemoPlatform red2x2 4 2 "nearest" t
       = ((t ++ [Ev_call (Call_resize 4 2 LANCZOS)])%list,
          @Image_resize DemoPlatform red2x2 4 2 LANCZOS).
Proof.
  apply (unknown_method_resizes_as_lanczos RefNumpy DemoPlatform red2x2 4 2 "nearest");
    discriminate.
Defined.

(** ** Error handling of the entry point *)

Section Silence.
Context {NP : NumpyLib} {PF : Platform}.

Lemma only_calls_ret {A : Type} (a : A) : only_calls (ret a).
Proof. intros t. exists []. simpl. now rewrite app_nil_r. Qed.

Lemma only_calls_lift {A : Type} (r : result A) : only_calls (lift r).
Proof. intros t. exists []. simpl. now rewrite app_nil_r. Qed.

Lemma only_calls_lib {A : Type} (c : call) (r : result A) : only_calls (lib c r).
Proof. intros t. exists [c]. reflexivity. Qed.

Lemma only_calls_bind {A B : Type} (m : M A) (k : A -> M B) :
  only_calls m -> (forall a, only_calls (k a)) -> only_calls (bind m k).
Proof.
  intros Hm Hk t. unfold bind.
  destruct (Hm t) as [c1 H1]. destruct (m t) as [t1 [e | a]]; simpl in H1.
  - exists c1. exact H1.
  - destruct (Hk a t1) as [c2 H2]. exists (c1 ++ c2)%list.
    rewrite H2, H1, map_app, app_assoc. reflexivity.
Qed.

Lemma only_calls_if {A : Type} (b : bool) (m1 m2 : M A) :
  only_calls m1 -> only_calls m2 -> only_calls (if b then m1 else m2).
Proof. now destruct b. Qed.

Lemma only_calls_linear_light_resize (img : Image) (w h : Z) (k : Resampling) :
  only_calls (linear_light_resize img w h k).
Proof.
  unfold linear_light_resize.
  repeat (apply only_calls_bind; [apply only_calls_lib | intros ?]).
  apply only_calls_if; [apply only_calls_ret | apply only_calls_lift].
Qed.

Lemma only_calls_resize (img : Image) (w h : Z) (method : string) :
  only_calls (resize_with_optimal_filter img w h method).
Proof.
  unfold resize_with_optimal_filter.
  repeat apply only_calls_if;
    first [apply only_calls_linear_light_resize | apply only_calls_lib].
Qed.

Lemma only_calls_prepare (a : Args) : only_calls (prepare a).
Proof.
  unfold prepare.
  apply only_calls_bind; [apply only_calls_lib | intros src].
  apply only_calls_bind; [apply only_calls_lift | intros height_chars].
  apply only_calls_bind; [apply only_calls_resize | intros img1].
  apply only_calls_bind; [| intros img2].
  { unfold stage_denoise, apply_gentle_denoise.
    repeat apply only_calls_if;
      first [apply only_calls_ret | apply only_calls_lib]. }
  apply only_calls_bind; [| intros img3].
  { unfold stage_colour, enhance_color_separation.
    apply only_calls_if; [| apply only_calls_ret].
    apply only_calls_bind; [| intros ?].
    - apply only_calls_if; [apply only_calls_lib | apply only_calls_ret].
    - apply only_calls_bind; [| intros ?; apply only_calls_ret].
      apply only_calls_if; [apply only_calls_lib | apply only_calls_ret]. }
  apply only_calls_bind; [| intros img4; apply only_calls_ret].
  unfold stage_sharpen, apply_edge_aware_sharpen.
  repeat apply only_calls_if;
    first [apply only_calls_ret | apply only_calls_lib].
Qed.

Lemma only_calls_render (a : Args) : only_calls (render a).
Proof.
  unfold render.
  apply only_calls_bind; [apply only_calls_prepare | intros [[img sw] sh]].
  apply only_calls_bind; [apply only_calls_lift | intros [lines n]].
  apply only_calls_ret.
Qed.

Lemma print_accepted (text : string) (t : list event) :
  io_error t (Ev_print text) = None ->
  print text t = ((t ++ [Ev_print text])%list, inr tt).
Proof. intros H. unfold print, file_action. now rewrite H. Qed.

(** The handler of the entry point, when its report is accepted. *)
Lemma caught_and_reported (a : Args) (t t' : list event) (e : exn) :
  os_path_exists (image_path a) = true ->
  process a t = (t', inl e) ->
  io_error t' (Ev_print ("Error while processing image: " ++ exn_msg e)) = None ->
  image_to_verilog_display a t
  = ((t' ++ [Ev_print ("Error while processing image: " ++ exn_msg e);
             Ev_traceback e])%list,
     inr false).
Proof.
  intros Hexists Hprocess Hprint.
  unfold image_to_verilog_display. rewrite Hexists. cbn [negb].
  unfold try_except, bind at 1. rewrite Hprocess.
  unfold bind. rewrite (print_accepted _ _ Hprint).
  unfold ret. rewrite <- app_assoc. reflexivity.
Qed.

End Silence.




(** ** The end-to-end scenario *)

Section Scenario.
Context {NP : NumpyLib} {PF : Platform}.

Hypothesis resize_same_size :
  forall (img : Image) (k : Resampling),
    Image_resize img (im_w img) (im_h img) k = inr img.
Hypothesis resize_F_same_size :
  forall (img : ImageF) (k : Resampling),
    ImageF_resize img (imf_w img) (imf_h img) k = inr img.
Hypothesis powf_at_255 : powf_accurate_at 255 = true.
Hypothesis stdout_accepts_line :
  forall t : list event, io_error t (Ev_print (red_cell ++ red_cell)) = None.

Lemma linear_light_resize_red (k : Resampling) (t : list event) :
  linear_light_resize red2x2 2 2 k t
  = ((t ++ map Ev_call [Call_resize_F 2 2 k; Call_resize_F 2 2 k; Call_resize_F 2 2 k])%list,
     inr red2x2).
Proof.
  assert (H255 : to_srgb (to_linear 255) = 255)
    by (apply roundtrip_byte; [lia | exact powf_at_255]).
  assert (H0 : to_srgb (to_linear 0) = 0)
    by (apply roundtrip_byte; [lia | reflexivity]).
  unfold linear_light_resize. cbv zeta.
  rewrite srgb_to_linear_map.
  change (Arr.of_image red2x2) with [255; 0; 0; 255; 0; 0; 255; 0; 0; 255; 0; 0].
  cbn [map].
  set (a := to_linear 255) in *. set (b := to_linear 0) in *.
  cbn [Arr.channel im_w im_h red2x2].
  unfold bind, lib.
  pose proof (resize_F_same_size (mkImageF 2 2 [a; a; a; a]) k) as Ra.
  pose proof (resize_F_same_size (mkImageF 2 2 [b; b; b; b]) k) as Rb.
  cbn [imf_w imf_h] in Ra, Rb. rewrite Ra, Rb.
  cbn [imf_w imf_h imf_px Z.eqb Pos.eqb andb Arr.interleave].
  rewrite linear_to_srgb_map. cbn [map]. rewrite H255, H0.
  unfold ret. cbn [Arr.pixels map]. rewrite <- !app_assoc. reflexivity.
Qed.

Lemma resize_red (method : string) (t : list event) :
  exists calls : list call,
    Forall (fun c => (exists k, c = Call_resize 2 2 k)
                     \/ (exists k, c = Call_resize_F 2 2 k)) calls
    /\ resize_with_optimal_filter red2x2 2 2 method t
       = ((t ++ map Ev_call calls)%list, inr red2x2).
Proof.
  unfold resize_with_optimal_filter.
  pose proof (resize_same_size red2x2) as R. cbn [im_w im_h red2x2] in R.
  destruct (String.eqb method "linear_lanczos");
    [exists [Call_resize_F 2 2 LANCZOS; Call_resize_F 2 2 LANCZOS;
             Call_resize_F 2 2 LANCZOS];
     split; [repeat (apply Forall_cons; [right; eauto |]); apply Forall_nil
           | apply linear_light_resize_red] |].
  destruct (String.eqb method "linear_bicubic");
    [exists [Call_resize_F 2 2 BICUBIC; Call_resize_F 2 2 BICUBIC;
             Call_resize_F 2 2 BICUBIC];
     split; [repeat (apply Forall_cons; [right; eauto |]); apply Forall_nil
           | apply linear_light_resize_red] |].
  destruct (String.eqb method "lanczos");
    [exists [Call_resize 2 2 LANCZOS]; split;
     [apply Forall_cons; [left; eauto | apply Forall_nil]
     | unfold lib; now rewrite R] |].
  destruct (String.eqb method "bicubic");
    [exists [Call_resize 2 2 BICUBIC]; split;
     [apply Forall_cons; [left; eauto | apply Forall_nil]
     | unfold lib; now rewrite R] |].
  exists [Call_resize 2 2 LANCZOS]; split;
    [apply Forall_cons; [left; eauto | apply Forall_nil]
     | unfold lib; now rewrite R].
Qed.

Lemma scenario_height : target_height_chars 2 2 2 (F64.lit 2 1) = inr 1.
Proof. vm_compute. reflexivity. Qed.

Lemma scenario_rows :
  render_rows red2x2 true true FULL_BLOCK true = inr ([[red_cell; red_cell]], 1).
Proof. vm_compute. reflexivity. Qed.

Lemma prepare_red (path method : string) (t : list event) :
  Image_open path = inr red2x2 ->
  exists calls : list call,
    Forall (fun c => c = Call_open path
                     \/ (exists k, c = Call_resize 2 2 k)
                     \/ (exists k, c = Call_resize_F 2 2 k)) calls
    /\ prepare (scenario_args path method) t
       = ((t ++ map Ev_call calls)%list, inr (red2x2, 2, 2)).
Proof.
  intros Hopen. unfold prepare, scenario_args.
  cbn [image_path width cell_aspect half_block resize_method denoise
       saturation contrast sharpen].
  unfold bind at 1, lib at 1. rewrite Hopen. cbn [im_w im_h red2x2].
  unfold bind at 1, lift at 1. rewrite scenario_height.
  change (target_h_px true 1) with 2.
  unfold bind at 1.
  destruct (resize_red method (t ++ [Ev_call (Call_open path)])%list)
    as (calls & Hcalls & Hres).
  rewrite Hres.
  exists (Call_open path :: calls). split.
  - constructor; [now left |].
    eapply Forall_impl; [| exact Hcalls]. intros c Hc. right. exact Hc.
  - cbn [map]. rewrite <- app_assoc. reflexivity.
Qed.

(** C9 (as amended).  For a 2x2 solid-red source image with requested width
    2, half-block mode and all optional filters disabled, whatever the resize
    method, the pipeline produces exactly one output line; the line contains
    two cells (one per column), and the top and bottom colours of each are
    pure red.  No filter of the imaging library is called.  The imaging
    library is assumed to return a copy when asked for the size the image
    already has, the power function to be accurate at the byte 255, and
    standard output to accept the line. *)
Theorem red_square_scenario (path method : string) :
  os_path_exists path = true ->
  Image_open path = inr red2x2 ->
  red_cell
  = sgr_fg CSI (255, 0, 0) ++ sgr_bg CSI (255, 0, 0) ++ "▀" ++ sgr_reset CSI
  /\ exists calls : list call,
       Forall (fun c => c = Call_open path
                        \/ (exists k, c = Call_resize 2 2 k)
                        \/ (exists k, c = Call_resize_F 2 2 k)) calls
       /\ prepare (scenario_args path method) []
          = (map Ev_call calls, inr (red2x2, 2, 2))
       /\ render_rows red2x2 true true FULL_BLOCK true
          = inr ([[red_cell; red_cell]], 1)
       /\ render (scenario_args path method) []
          = (map Ev_call calls, inr ([red_cell ++ red_cell], 1, 2, 2))
       /\ image_to_verilog_display (scenario_args path method) []
          = ((map Ev_call calls ++ [Ev_print (red_cell ++ red_cell)])%list,
             inr true).
Proof.
  intros Hexists Hopen. split; [reflexivity |].
  destruct (prepare_red path method [] Hopen) as (calls & Hcalls & Hprep).
  cbn [app] in Hprep.
  assert (Hrender : render (scenario_args path method) []
                    = (map Ev_call calls, inr ([red_cell ++ red_cell], 1, 2, 2))).
  { unfold render, bind at 1. rewrite Hprep.
    unfold generate_ansi_lines, scenario_args.
    cbn [half_block upper_half char_full use_csi].
    rewrite scenario_rows. reflexivity. }
  exists calls.
  split; [exact Hcalls |].
  split; [exact Hprep |].
  split; [exact scenario_rows |].
  split; [exact Hrender |].
  unfold image_to_verilog_display.
  replace (image_path (scenario_args path method)) with path by reflexivity.
  rewrite Hexists. cbn [negb].
  assert (Hprocess : process (scenario_args path method) []
                     = ((map Ev_call calls
                           ++ [Ev_print (red_cell ++ red_cell)])%list, inr tt)).
  { unfold process, bind at 1. rewrite Hrender.
    change (write_output (scenario_args path method) 2 2 1
              [red_cell ++ red_cell] (map Ev_call calls))
      with ((print (red_cell ++ red_cell) ;; ret tt) (map Ev_call calls)).
    unfold bind. rewrite (print_accepted _ _ (stdout_accepts_line _)).
    reflexivity. }
  unfold try_except, bind at 1. rewrite Hprocess. reflexivity.
Qed.

End Scenario.

(** The scenario on the demonstration platform with the reference power
    function and the default resize method. *)
Lemma red_square_scenario_witness :
  red_cell
  = sgr_fg CSI (255, 0, 0) ++ sgr_bg CSI (255, 0, 0) ++ "▀" ++ sgr_reset CSI
  /\ exists calls : list call,
       Forall (fun c => c = Call_open "red.png"
                        \/ (exists k, c = Call_resize 2 2 k)
                        \/ (exists k, c = Call_resize_F 2 2 k)) calls
       /\ @prepare RefNumpy DemoPlatform (scenario_args "red.png" "linear_bicubic") []
          = (map Ev_call calls, inr (red2x2, 2, 2))
       /\ render_rows red2x2 true true FULL_BLOCK true
          = inr ([[red_cell; red_cell]], 1)
       /\ @render RefNumpy DemoPlatform (scenario_args "red.png" "linear_bicubic") []
          = (map Ev_call calls, inr ([red_cell ++ red_cell], 1, 2, 2))
       /\ @image_to_verilog_display RefNumpy DemoPlatform
            (scenario_args "red.png" "linear_bicubic") []
          = ((map Ev_call calls ++ [Ev_print (red_cell ++ red_cell)])%list,
             inr true).
Proof.
  apply (@red_square_scenario RefNumpy DemoPlatform).
  - intros img k. unfold Image_resize, DemoPlatform, demo_resize.
    rewrite !Z.eqb_refl. reflexivity.
  - intros img k. unfold ImageF_resize, DemoPlatform, demo_resize_F.
    rewrite !Z.eqb_refl. reflexivity.
  - vm_compute. reflexivity.
  - reflexivity.
  - reflexivity.
  - reflexivity.
Defined.

(** C9, the claim as stated fails: in the scenario the one output line holds
    two cells, not one. *)
Lemma red_square_line_has_two_cells :
  exists (t : list event) (row : list string),
    @prepare RefNumpy DemoPlatform (scenario_args "red.png" "linear_bicubic") []
    = (t, inr (red2x2, 2, 2))
    /\ render_rows red2x2 true true FULL_BLOCK true = inr ([row], 1)
    /\ List.length row = 2%nat
    /\ ~ (exists cell : string, row = [cell]).
Proof.
  eexists. exists [red_cell; red_cell]. repeat split.
  - vm_compute. reflexivity.
  - intros [cell H]. discriminate H.
Qed.

(** * Further properties of the code *)

(** ** The filter chain *)

(** X1.  Denoising saturates: for every radius of 2 or more the median window
    is 5, so the call is the one made for radius 2. *)
Theorem denoise_saturates (PF : Platform) (pil_img : Image) (radius : Z) :
  2 <= radius ->
  apply_gentle_denoise pil_img radius = apply_gentle_denoise pil_img 2
  /\ forall t : list event,
       apply_gentle_denoise pil_img radius t
       = ((t ++ [Ev_call (Call_MedianFilter 5)])%list, MedianFilter 5 pil_img).
Proof.
  intros Hr. unfold apply_gentle_denoise.
  replace (radius <=? 0) with false by (symmetry; apply Z.leb_gt; lia).
  replace (Z.min 5 (radius * 2 + 1)) with 5 by lia.
  split; reflexivity.
Qed.

(** A radius of 3, the largest documented one. *)
Lemma denoise_saturates_witness :
  @apply_gentle_denoise DemoPlatform red2x2 3
  = @apply_gentle_denoise DemoPlatform red2x2 2
  /\ forall t : list event,
       @apply_gentle_denoise DemoPlatform red2x2 3 t
       = ((t ++ [Ev_call (Call_MedianFilter 5)])%list,
          @MedianFilter DemoPlatform 5 red2x2).
Proof.
  apply (denoise_saturates DemoPlatform red2x2 3). lia.
Defined.

(** X2.  A sharpening strength that is not in the table is treated as
    ["light"]: the missing key falls back to the light preset. *)
Theorem unknown_strength_sharpens_lightly (PF : Platform) (pil_img : Image)
  (strength : string) :
  strength <> "none" -> strength <> "light" ->
  strength <> "medium" -> strength <> "strong" ->
  apply_edge_aware_sharpen pil_img strength
  = apply_edge_aware_sharpen pil_img "light"
  /\ forall t : list event,
       apply_edge_aware_sharpen pil_img strength t
       = ((t ++ [Ev_call (Call_UnsharpMask params_light)])%list,
          UnsharpMask params_light pil_img).
Proof.
  intros H0 H1 H2 H3. apply String.eqb_neq in H0, H1, H2, H3.
  unfold apply_edge_aware_sharpen. rewrite H0.
  unfold sharpen_params, dict_get.
  rewrite (String.eqb_sym "light"), H1, (String.eqb_sym "medium"), H2,
    (String.eqb_sym "strong"), H3.
  split; reflexivity.
Qed.

Lemma unknown_strength_sharpens_lightly_witness :
  @apply_edge_aware_sharpen DemoPlatform red2x2 "extreme"
  = @apply_edge_aware_sharpen DemoPlatform red2x2 "light"
  /\ forall t : list event,
       @apply_edge_aware_sharpen DemoPlatform red2x2 "extreme" t
       = ((t ++ [Ev_call (Call_UnsharpMask params_light)])%list,
          @UnsharpMask DemoPlatform params_light red2x2).
Proof.
  apply (unknown_strength_sharpens_lightly DemoPlatform red2x2 "extreme");
    discriminate.
Defined.

(** X3.  The guards of the entry point around the three filters repeat the
    guards inside the filters: each stage behaves as the unguarded call of its
    function, for every argument. *)
Theorem stage_guards_are_redundant (PF : Platform) (img : Image) (denoise : Z)
  (saturation contrast : spec_float) (sharpen : string) (t : list event) :
  stage_denoise img denoise t = apply_gentle_denoise img denoise t
  /\ stage_colour img saturation contrast t
     = enhance_color_separation img saturation contrast t
  /\ stage_sharpen img sharpen t = apply_edge_aware_sharpen img sharpen t.
Proof.
  split; [| split].
  - unfold stage_denoise, apply_gentle_denoise.
    destruct (Z.ltb_spec 0 denoise) as [H | H]; [reflexivity |].
    replace (denoise <=? 0) with true by (symmetry; apply Z.leb_le; exact H).
    reflexivity.
  - unfold stage_colour, enhance_color_separation.
    destruct (F64.neqb saturation F64.one); [reflexivity |].
    destruct (F64.neqb contrast F64.one); reflexivity.
  - unfold stage_sharpen, apply_edge_aware_sharpen.
    destruct (String.eqb sharpen "none"); reflexivity.
Qed.

(** ** Texts *)

Lemma count_char_app (c : ascii) (a b : string) :
  count_char c (a ++ b) = (count_char c a + count_char c b)%nat.
Proof.
  induction a as [| x a IH]; [reflexivity |].
  simpl. rewrite IH. apply Nat.add_assoc.
Qed.

Lemma string_length_app (a b : string) :
  String.length (a ++ b) = (String.length a + String.length b)%nat.
Proof. induction a as [| x a IH]; simpl; [reflexivity | now rewrite IH]. Qed.

Lemma count_char_cons (c a : ascii) (s : string) :
  count_char c (String a s)
  = ((if Ascii.eqb a c then 1 else 0) + count_char c s)%nat.
Proof. reflexivity. Qed.

Lemma digit_or_minus_false (c a : ascii) :
  digit_or_minus c = false ->
  In a ["0"; "1"; "2"; "3"; "4"; "5"; "6"; "7"; "8"; "9"; "-"]%char ->
  Ascii.eqb a c = false.
Proof.
  unfold digit_or_minus. intros H Hin.
  rewrite Ascii.eqb_sym.
  destruct (Ascii.eqb c a) eqn:E; [| reflexivity].
  rewrite <- H. symmetry. apply existsb_exists. exists a. split; assumption.
Qed.

Lemma count_char_uint (c : ascii) (d : Decimal.uint) :
  digit_or_minus c = false ->
  count_char c (NilEmpty.string_of_uint d) = O.
Proof.
  intros H.
  induction d as [| d IH | d IH | d IH | d IH | d IH | d IH | d IH | d IH
                 | d IH | d IH]; [reflexivity | ..];
    cbn [NilEmpty.string_of_uint]; rewrite count_char_cons, IH;
    rewrite (digit_or_minus_false c _ H) by (simpl; tauto); reflexivity.
Qed.

(** [str(n)] consists of digits and possibly a minus sign. *)
Lemma count_char_of_int (c : ascii) (n : Z) :
  digit_or_minus c = false -> count_char c (PyStr.of_int n) = O.
Proof.
  intros H. unfold PyStr.of_int, NilZero.string_of_int, NilZero.string_of_uint.
  pose proof (digit_or_minus_false c "0"%char H ltac:(simpl; tauto)) as Hz.
  pose proof (digit_or_minus_false c "-"%char H ltac:(simpl; tauto)) as Hm.
  destruct (Z.to_int n) as [d | d].
  - destruct d; try (apply count_char_uint; exact H).
    rewrite count_char_cons, Hz. reflexivity.
  - rewrite count_char_cons, Hm.
    destruct d; try (apply count_char_uint; exact H).
    rewrite count_char_cons, Hz. reflexivity.
Qed.

Lemma escape_chars_length (s : string) :
  String.length (escape_chars s)
  = (String.length s + count_char BACKSLASH s + count_char DQUOTE s)%nat.
Proof.
  induction s as [| c s IH]; [reflexivity |].
  cbn [escape_chars]. rewrite string_length_app, IH, !count_char_cons.
  unfold escape_char.
  destruct (Ascii.eqb c BACKSLASH) eqn:Hb.
  - apply Ascii.eqb_eq in Hb. subst c.
    change (Ascii.eqb BACKSLASH DQUOTE) with false. simpl. lia.
  - destruct (Ascii.eqb c DQUOTE); simpl; lia.
Qed.

Lemma escape_chars_plain (s : string) : plain s -> escape_chars s = s.
Proof.
  unfold plain. induction s as [| c s IH]; [reflexivity |].
  rewrite !count_char_cons. intros [Hb Hq].
  cbn [escape_chars]. unfold escape_char.
  destruct (Ascii.eqb c BACKSLASH); [discriminate Hb |].
  destruct (Ascii.eqb c DQUOTE); [discriminate Hq |].
  simpl. f_equal. apply IH. split; assumption.
Qed.

(** X4.  Escaping lengthens a text by exactly one character per backslash
    and per double quote, and it returns a text unchanged exactly when the
    text contains neither. *)
Theorem escaping_length_and_fixpoints :
  (forall text : string,
      String.length (escape_verilog_string text)
      = (String.length text + count_char BACKSLASH text
         + count_char DQUOTE text)%nat)
  /\ (forall text : string, escape_verilog_string text = text <-> plain text).
Proof.
  split.
  - intros text. rewrite escape_verilog_string_chars. apply escape_chars_length.
  - intros text. rewrite escape_verilog_string_chars. split.
    + intros H. pose proof (escape_chars_length text) as L.
      rewrite H in L. unfold plain. lia.
    + apply escape_chars_plain.
Qed.

(** ** Cells *)

Lemma count_char_half_cell (c : ascii) (top bot : pixel)
  (use_upper use_csi : bool) :
  digit_or_minus c = false ->
  count_char c (ansi_fg_bg top bot use_upper use_csi)
  = count_char c (ansi_fg_bg (0, 0, 0) (0, 0, 0) use_upper use_csi).
Proof.
  intros H. destruct top as [[rt gt] bt], bot as [[rb gb] bb].
  unfold ansi_fg_bg.
  set (pre := if use_csi then CSI else "[").
  set (ch := if use_upper then UPPER_HALF else LOWER_HALF).
  rewrite !count_char_app, !(count_char_of_int c) by exact H.
  reflexivity.
Qed.

Lemma count_char_full_cell (c : ascii) (rgb : pixel) (char : string)
  (use_csi : bool) :
  digit_or_minus c = false ->
  count_char c (ansi_single rgb char use_csi)
  = count_char c (ansi_single (0, 0, 0) char use_csi).
Proof.
  intros H. destruct rgb as [[r g] b].
  unfold ansi_single.
  set (pre := if use_csi then CSI else "[").
  rewrite !count_char_app, !(count_char_of_int c) by exact H.
  reflexivity.
Qed.

(** X5.  The escape character occurs three times in a half-block cell and
    twice around the glyph of a full-block cell when CSI is enabled, and the
    encoder adds none when it is disabled, whatever the colours. *)
Theorem escape_characters_per_cell :
  (forall (top bot : pixel) (use_upper use_csi : bool),
      count_char ESC (ansi_fg_bg top bot use_upper use_csi)
      = if use_csi then 3%nat else 0%nat)
  /\ (forall (rgb : pixel) (char : string) (use_csi : bool),
        count_char ESC (ansi_single rgb char use_csi)
        = (count_char ESC char + if use_csi then 2 else 0)%nat).
Proof.
  split.
  - intros top bot use_upper use_csi.
    rewrite count_char_half_cell by reflexivity.
    destruct use_upper, use_csi; reflexivity.
  - intros rgb char use_csi.
    rewrite count_char_full_cell by reflexivity.
    unfold ansi_single. cbn [PyStr.of_int].
    set (pre := if use_csi then CSI else "[").
    rewrite !count_char_app. unfold pre.
    destruct use_csi; cbn; lia.
Qed.

(** ** Rendered lines *)

Lemma traverse_Forall {A B : Type} (f : A -> result B) (P : B -> Prop)
  (l : list A) :
  forall ys : list B,
    (forall x y, In x l -> f x = inr y -> P y) ->
    traverse f l = inr ys -> Forall P ys.
Proof.
  induction l as [| x l IH]; intros ys Hf H; simpl in H.
  - injection H as <-. constructor.
  - destruct (f x) as [e | y] eqn:Hx; [discriminate H |]. cbn [rbind] in H.
    destruct (traverse f l) as [e | ys'] eqn:Hl; [discriminate H |].
    cbn [rbind] in H. injection H as <-. constructor.
    + apply (Hf x y); [now left | exact Hx].
    + apply IH; [| reflexivity]. intros x' y' Hin. apply Hf. now right.
Qed.

Lemma plain_app (a b : string) : plain a -> plain b -> plain (a ++ b).
Proof.
  unfold plain. rewrite !count_char_app. intros [-> ->] [-> ->]. now split.
Qed.

Lemma plain_join (row : list string) :
  Forall plain row -> plain (PyStr.join row).
Proof.
  unfold PyStr.join. induction 1 as [| x row Hx Hrow IH]; [now split |].
  destruct row as [| y row]; [exact Hx |].
  cbn [String.concat]. apply plain_app; [exact Hx |].
  apply plain_app; [now split | exact IH].
Qed.

Lemma plain_half_cell (top bot : pixel) (use_upper use_csi : bool) :
  plain (ansi_fg_bg top bot use_upper use_csi).
Proof.
  split; rewrite count_char_half_cell by reflexivity;
    destruct use_upper, use_csi; reflexivity.
Qed.

Lemma plain_full_cell (rgb : pixel) (char : string) (use_csi : bool) :
  plain char -> plain (ansi_single rgb char use_csi).
Proof.
  intros [Hb Hq].
  split; rewrite count_char_full_cell by reflexivity;
    unfold ansi_single; cbn [PyStr.of_int];
    set (pre := if use_csi then CSI else "[");
    rewrite !count_char_app, ?Hb, ?Hq; unfold pre;
    destruct use_csi; reflexivity.
Qed.

Lemma render_rows_plain (img : Image) (half_block upper_half : bool)
  (char_full : string) (use_csi : bool) (rows : list (list string)) (n : Z) :
  half_block = true \/ plain char_full ->
  render_rows img half_block upper_half char_full use_csi = inr (rows, n) ->
  Forall (Forall plain) rows.
Proof.
  intros Hmode H. unfold render_rows in H. cbv zeta in H.
  destruct half_block.
  - destruct (im_h img mod 2 =? 1);
      match type of H with
      | rbind (traverse ?f ?l) _ = _ =>
          destruct (traverse f l) as [e | rs] eqn:Hrows; [discriminate H |]
      end;
      cbn [rbind] in H; injection H as <- _;
      (eapply traverse_Forall; [| exact Hrows]);
      intros y row _ Hrow; cbv beta in Hrow;
      (eapply traverse_Forall; [| exact Hrow]);
      intros x cell _ Hcell; cbv beta in Hcell;
      match type of Hcell with
      | rbind ?p _ = _ => destruct p as [e | top]; [discriminate Hcell |]
      end;
      cbn [rbind] in Hcell;
      match type of Hcell with
      | rbind ?p _ = _ => destruct p as [e | bot]; [discriminate Hcell |]
      end;
      cbn [rbind] in Hcell; injection Hcell as <-; apply plain_half_cell.
  - destruct Hmode as [Hmode | Hchar]; [discriminate Hmode |].
    match type of H with
    | rbind (traverse ?f ?l) _ = _ =>
        destruct (traverse f l) as [e | rs] eqn:Hrows; [discriminate H |]
    end.
    cbn [rbind] in H. injection H as <- _.
    eapply traverse_Forall; [| exact Hrows].
    intros y row _ Hrow. cbv beta in Hrow.
    eapply traverse_Forall; [| exact Hrow].
    intros x cell _ Hcell. cbv beta in Hcell.
    match type of Hcell with
    | rbind ?p _ = _ => destruct p as [e | px]; [discriminate Hcell |]
    end.
    cbn [rbind] in Hcell. injection Hcell as <-.
    apply plain_full_cell. exact Hchar.
Qed.

(** X6.  In half-block mode, and in full-block mode when the glyph holds no
    backslash and no double quote, every rendered line passes through the
    escaping unchanged, so the display statement of the Verilog format carries
    the ANSI line verbatim between its quotes. *)
Theorem rendered_lines_need_no_escaping (img : Image)
  (half_block upper_half : bool) (char_full : string) (use_csi : bool)
  (lines : list string) (n : Z) :
  half_block = true \/ plain char_full ->
  generate_ansi_lines img half_block upper_half char_full use_csi
  = inr (lines, n) ->
  Forall (fun line =>
            escape_verilog_string line = line
            /\ display_statement line
               = "$display(" ++ String DQUOTE (line ++ String DQUOTE ");"))
         lines.
Proof.
  intros Hmode H. unfold generate_ansi_lines in H.
  destruct (render_rows img half_block upper_half char_full use_csi)
    as [e | [rows m]] eqn:Hrows; [discriminate H |].
  cbn [rbind fst snd] in H. injection H as <- _.
  apply render_rows_plain in Hrows; [| exact Hmode].
  apply Forall_map. eapply Forall_impl; [| exact Hrows].
  intros row Hrow. apply plain_join in Hrow.
  assert (Hid : escape_verilog_string (PyStr.join row) = PyStr.join row).
  { rewrite escape_verilog_string_chars. apply escape_chars_plain. exact Hrow. }
  split; [exact Hid |]. unfold display_statement. rewrite Hid. reflexivity.
Qed.

Lemma rendered_lines_need_no_escaping_witness :
  Forall (fun line =>
            escape_verilog_string line = line
            /\ display_statement line
               = "$display(" ++ String DQUOTE (line ++ String DQUOTE ");"))
         [red_cell ++ red_cell].
Proof.
  apply (rendered_lines_need_no_escaping red2x2 true true FULL_BLOCK true
           [red_cell ++ red_cell] 1).
  - left. reflexivity.
  - reflexivity.
Defined.

(** ** The shape of the rendered grid *)

Lemma traverse_total {A B : Type} (f : A -> result B) (P : B -> Prop)
  (l : list A) :
  (forall x, In x l -> exists y, f x = inr y /\ P y) ->
  exists ys : list B,
    traverse f l = inr ys /\ List.length ys = List.length l /\ Forall P ys.
Proof.
  induction l as [| x l IH]; intros Hf.
  - exists []. repeat split. constructor.
  - destruct (Hf x (or_introl eq_refl)) as (y & Hy & Py).
    destruct IH as (ys & Hys & Hlen & HP).
    { intros x' Hin. apply Hf. now right. }
    exists (y :: ys). simpl. rewrite Hy. cbn [rbind]. rewrite Hys. cbn [rbind].
    repeat split; [now rewrite Hlen | now constructor].
Qed.

Lemma range_In (start stop step y : Z) :
  0 < step -> In y (range start stop step) ->
  exists i : Z,
    y = start + step * i /\ 0 <= i < (stop - start + step - 1) / step.
Proof.
  intros Hs Hin. unfold range in Hin. apply in_map_iff in Hin.
  destruct Hin as (i & <- & Hi). apply in_seq in Hi.
  exists (Z.of_nat i). split; [reflexivity | lia].
Qed.

Lemma range_length (start stop step : Z) :
  List.length (range start stop step)
  = Z.to_nat ((stop - start + step - 1) / step).
Proof. unfold range. now rewrite length_map, length_seq. Qed.

Lemma getpixel_in_range (img : Image) (x y : Z) :
  well_formed img -> 0 <= x < im_w img -> 0 <= y < im_h img ->
  exists p : pixel, getpixel img x y = inr p.
Proof.
  intros (Hw & Hh & Hlen) Hx Hy. unfold getpixel.
  replace (0 <=? x) with true by (symmetry; apply Z.leb_le; lia).
  replace (x <? im_w img) with true by (symmetry; apply Z.ltb_lt; lia).
  replace (0 <=? y) with true by (symmetry; apply Z.leb_le; lia).
  replace (y <? im_h img) with true by (symmetry; apply Z.ltb_lt; lia).
  cbn [andb].
  destruct (nth_error (im_px img) (Z.to_nat (y * im_w img + x))) as [p |] eqn:E;
    [eauto |].
  apply nth_error_None in E. exfalso.
  assert (y * im_w img + x < im_w img * im_h img) by nia.
  lia.
Qed.

Lemma crop_well_formed (img : Image) (h : Z) :
  well_formed img -> 0 <= h <= im_h img -> well_formed (crop img (im_w img) h).
Proof.
  intros (Hw & Hh & Hlen) Hc. unfold well_formed, crop. cbn [im_w im_h im_px].
  repeat split; try lia.
  rewrite length_firstn.
  assert (im_w img * h <= im_w img * im_h img) by nia.
  lia.
Qed.

Lemma half_block_rows (img : Image) (upper_half use_csi : bool) :
  well_formed img -> im_h img mod 2 = 0 ->
  exists rows : list (list string),
    traverse
      (fun y =>
         traverse
           (fun x =>
              rbind (getpixel img x y) (fun top =>
              rbind (getpixel img x (y + 1)) (fun bot =>
              inr (ansi_fg_bg top bot upper_half use_csi))))
           (range 0 (im_w img) 1))
      (range 0 (im_h img) 2)
    = inr rows
    /\ Z.of_nat (List.length rows) = im_h img / 2
    /\ Forall (fun row => Z.of_nat (List.length row) = im_w img) rows.
Proof.
  intros Hwf Heven. pose proof Hwf as (Hw & Hh & _).
  assert (Hdiv : im_h img = 2 * (im_h img / 2))
    by (pose proof (Z.div_mod (im_h img) 2); lia).
  match goal with
  | |- exists _, traverse ?f ?l = _ /\ _ =>
      destruct (traverse_total f
                  (fun r => Z.of_nat (List.length r) = im_w img) l)
        as (rows & Hrows & Hlen & Hall)
  end.
  - intros y Hy. apply range_In in Hy; [| lia].
    destruct Hy as (i & -> & Hi).
    replace ((im_h img - 0 + 2 - 1) / 2) with (im_h img / 2) in Hi
      by (rewrite Hdiv at 2;
          replace (2 * (im_h img / 2) - 0 + 2 - 1)
            with (1 + (im_h img / 2) * 2) by lia;
          rewrite Z.div_add by lia; reflexivity).
    match goal with
    | |- exists _, traverse ?f ?l = _ /\ _ =>
        destruct (traverse_total f (fun _ => True) l) as (row & Hrow & Hl & _)
    end.
    + intros x Hx. apply range_In in Hx; [| lia]. destruct Hx as (j & -> & Hj).
      replace ((im_w img - 0 + 1 - 1) / 1) with (im_w img) in Hj
        by (rewrite Z.div_1_r; lia).
      destruct (getpixel_in_range img (0 + 1 * j) (0 + 2 * i) Hwf) as [top Ht];
        [lia | lia |].
      destruct (getpixel_in_range img (0 + 1 * j) (0 + 2 * i + 1) Hwf)
        as [bot Hb]; [lia | lia |].
      rewrite Ht, Hb. cbn [rbind]. eauto.
    + exists row. split; [exact Hrow |].
      rewrite Hl, range_length, Z.div_1_r. lia.
  - exists rows. split; [exact Hrows | split; [| exact Hall]].
    rewrite Hlen, range_length.
    replace ((im_h img - 0 + 2 - 1) / 2) with (im_h img / 2)
      by (rewrite Hdiv at 2;
          replace (2 * (im_h img / 2) - 0 + 2 - 1)
            with (1 + (im_h img / 2) * 2) by lia;
          rewrite Z.div_add by lia; reflexivity).
    lia.
Qed.

Lemma full_block_rows (img : Image) (char_full : string) (use_csi : bool) :
  well_formed img ->
  exists rows : list (list string),
    traverse
      (fun y =>
         traverse
           (fun x =>
              rbind (getpixel img x y) (fun p =>
              inr (ansi_single p char_full use_csi)))
           (range 0 (im_w img) 1))
      (range 0 (im_h img) 1)
    = inr rows
    /\ Z.of_nat (List.length rows) = im_h img
    /\ Forall (fun row => Z.of_nat (List.length row) = im_w img) rows.
Proof.
  intros Hwf. pose proof Hwf as (Hw & Hh & _).
  match goal with
  | |- exists _, traverse ?f ?l = _ /\ _ =>
      destruct (traverse_total f
                  (fun r => Z.of_nat (List.length r) = im_w img) l)
        as (rows & Hrows & Hlen & Hall)
  end.
  - intros y Hy. apply range_In in Hy; [| lia].
    destruct Hy as (i & -> & Hi). rewrite Z.div_1_r in Hi.
    match goal with
    | |- exists _, traverse ?f ?l = _ /\ _ =>
        destruct (traverse_total f (fun _ => True) l) as (row & Hrow & Hl & _)
    end.
    + intros x Hx. apply range_In in Hx; [| lia]. destruct Hx as (j & -> & Hj).
      rewrite Z.div_1_r in Hj.
      destruct (getpixel_in_range img (0 + 1 * j) (0 + 1 * i) Hwf) as [p Hp];
        [lia | lia |].
      rewrite Hp. cbn [rbind]. eauto.
    + exists row. split; [exact Hrow |].
      rewrite Hl, range_length, Z.div_1_r. lia.
  - exists rows. split; [exact Hrows | split; [| exact Hall]].
    rewrite Hlen, range_length, Z.div_1_r. lia.
Qed.

(** X7.  On an image whose pixel list matches its size the cell encoder
    never fails; it yields one row per pair of pixel rows in half-block mode
    (an odd last row is dropped) and one per pixel row in full-block mode,
    every row holds one cell per column, and the reported number of character
    rows is the number of rows produced. *)
Theorem rendered_grid_shape (img : Image) (half_block upper_half : bool)
  (char_full : string) (use_csi : bool) :
  well_formed img ->
  exists rows : list (list string),
    render_rows img half_block upper_half char_full use_csi
    = inr (rows, if half_block then im_h img / 2 else im_h img)
    /\ Z.of_nat (List.length rows)
       = (if half_block then im_h img / 2 else im_h img)
    /\ Forall (fun row => Z.of_nat (List.length row) = im_w img) rows.
Proof.
  intros Hwf. pose proof Hwf as (Hw & Hh & _).
  unfold render_rows. cbv zeta. destruct half_block.
  - destruct (Z.eqb_spec (im_h img mod 2) 1) as [Hodd | Heven].
    + assert (Hc : well_formed (crop img (im_w img) (im_h img - 1))).
      { apply crop_well_formed; [exact Hwf |].
        pose proof (Z.mod_pos_bound (im_h img) 2).
        assert (im_h img <> 0) by (intros E; rewrite E in Hodd; discriminate).
        lia. }
      assert (Hm : im_h (crop img (im_w img) (im_h img - 1)) mod 2 = 0).
      { cbn [crop im_h]. pose proof (Z.div_mod (im_h img) 2 ltac:(lia)).
        replace (im_h img - 1) with ((im_h img / 2) * 2) by lia.
        apply Z_mod_mult. }
      destruct (half_block_rows _ upper_half use_csi Hc Hm)
        as (rows & Hrows & Hlen & Hall).
      cbn [crop im_h im_w] in Hrows, Hlen, Hall.
      exists rows. rewrite Hrows. cbn [rbind].
      assert (Hq : (im_h img - 1) / 2 = im_h img / 2).
      { pose proof (Z.div_mod (im_h img) 2 ltac:(lia)).
        replace (im_h img - 1) with ((im_h img / 2) * 2) by lia.
        apply Z_div_mult. lia. }
      rewrite Hq in *. repeat split; assumption.
    + assert (Hm : im_h img mod 2 = 0)
        by (pose proof (Z.mod_pos_bound (im_h img) 2); lia).
      destruct (half_block_rows img upper_half use_csi Hwf Hm)
        as (rows & Hrows & Hlen & Hall).
      exists rows. rewrite Hrows. cbn [rbind]. repeat split; assumption.
  - destruct (full_block_rows img char_full use_csi Hwf)
      as (rows & Hrows & Hlen & Hall).
    exists rows. rewrite Hrows. cbn [rbind]. repeat split; assumption.
Qed.

(** A 1x3 image: the odd third row is dropped. *)
Lemma rendered_grid_shape_witness :
  exists rows : list (list string),
    render_rows (mkImage 1 3 [RED; RED; RED]) true true FULL_BLOCK true
    = inr (rows, 1)
    /\ Z.of_nat (List.length rows) = 1
    /\ Forall (fun row => Z.of_nat (List.length row) = 1) rows.
Proof.
  apply (rendered_grid_shape (mkImage 1 3 [RED; RED; RED]) true true
           FULL_BLOCK true).
  unfold well_formed. cbn. lia.
Defined.

(** ** What a run adds to the trace *)

Section Emits.
Context {A B : Type} (P : event -> Prop).

Lemma emits_ret (a : A) : emits P (ret a).
Proof. intros t. exists []. split; [simpl; now rewrite app_nil_r | constructor]. Qed.

Lemma emits_lift (r : result A) : emits P (lift r).
Proof. intros t. exists []. split; [simpl; now rewrite app_nil_r | constructor]. Qed.

Lemma emits_lib (c : call) (r : result A) : P (Ev_call c) -> emits P (lib c r).
Proof. intros H t. exists [Ev_call c]. split; [reflexivity | now constructor]. Qed.

Lemma emits_if (b : bool) (m1 m2 : M A) :
  emits P m1 -> emits P m2 -> emits P (if b then m1 else m2).
Proof. now destruct b. Qed.

Lemma emits_bind (m : M A) (k : A -> M B) :
  emits P m -> (forall a, returns m a -> emits P (k a)) -> emits P (bind m k).
Proof.
  intros Hm Hk t. unfold bind.
  destruct (Hm t) as (e1 & H1 & P1).
  destruct (m t) as [t1 [e | a]] eqn:Hmt; cbn [fst] in H1.
  - exists e1. split; assumption.
  - destruct (Hk a (ex_intro _ t (ex_intro _ t1 Hmt)) t1) as (e2 & H2 & P2).
    exists (e1 ++ e2)%list. split.
    + rewrite H2, H1, app_assoc. reflexivity.
    + apply Forall_app. split; assumption.
Qed.

Lemma emits_try_except (body : M A) (handler : exn -> M A) :
  emits P body -> (forall e, emits P (handler e)) ->
  emits P (try_except body handler).
Proof.
  intros Hb Hh t. unfold try_except.
  destruct (Hb t) as (e1 & H1 & P1).
  destruct (body t) as [t1 [e | a]]; cbn [fst] in H1.
  - destruct (Hh e t1) as (e2 & H2 & P2).
    exists (e1 ++ e2)%list. split.
    + rewrite H2, H1, app_assoc. reflexivity.
    + apply Forall_app. split; assumption.
  - exists e1. split; assumption.
Qed.

End Emits.

Lemma returns_lift {A : Type} (r : result A) (a : A) :
  returns (lift r) a -> r = inr a.
Proof. intros (t & t' & H). unfold lift in H. now injection H. Qed.

Section EmitsFiles.
Context {PF : Platform} (P : event -> Prop).

Lemma emits_file_action (ev : event) : P ev -> emits P (file_action ev).
Proof.
  intros H t. unfold file_action. destruct (io_error t ev).
  - exists []. split; [simpl; now rewrite app_nil_r | constructor].
  - exists [ev]. split; [reflexivity | now constructor].
Qed.

Lemma emits_print (text : string) : P (Ev_print text) -> emits P (print text).
Proof. apply emits_file_action. Qed.

Lemma emits_print_all (lines : list string) :
  (forall line, In line lines -> P (Ev_print line)) -> emits P (print_all lines).
Proof.
  induction lines as [| s lines IH]; intros H; cbn [print_all].
  - apply emits_ret.
  - apply emits_bind; [apply emits_print, H; now left |].
    intros _ _. apply IH. intros line Hin. apply H. now right.
Qed.

Lemma emits_write_all (path : string) (texts : list string) :
  (forall s, P (Ev_write path s)) -> emits P (write_all path texts).
Proof.
  intros H. induction texts as [| s texts IH]; cbn [write_all].
  - apply emits_ret.
  - apply emits_bind; [apply emits_file_action, H | intros _ _; exact IH].
Qed.

Lemma emits_with_open (path : string) (body : M unit) :
  P (Ev_open path) -> P (Ev_close path) -> emits P body ->
  emits P (with_open path body).
Proof.
  intros Ho Hc Hb t. unfold with_open, file_action.
  destruct (io_error t (Ev_open path)).
  - exists []. split; [simpl; now rewrite app_nil_r | constructor].
  - destruct (Hb (t ++ [Ev_open path])%list) as (evs & H & HP).
    destruct (body (t ++ [Ev_open path])%list) as [t2 r]. cbn [fst] in *.
    exists (Ev_open path :: evs ++ [Ev_close path])%list. split.
    + rewrite H, <- !app_assoc. reflexivity.
    + constructor; [exact Ho |]. apply Forall_app. split; [exact HP |].
      now constructor.
Qed.

End EmitsFiles.

(** ** What [main] asks of the library and what it prints *)

Lemma prefix_app (a b : string) : String.prefix a (a ++ b) = true.
Proof.
  induction a as [| x a IH]; simpl; [now destruct b |].
  destruct (ascii_dec x x) as [_ | N]; [exact IH | now elim N].
Qed.

Lemma target_height_chars_min (src_w src_h width : Z) (ca : spec_float)
  (height_chars : Z) :
  target_height_chars src_w src_h width ca = inr height_chars ->
  1 <= height_chars.
Proof.
  rewrite target_height_chars_quotient.
  destruct (height_quotient src_w src_h width ca) as [e | q];
    [discriminate |].
  cbn [rbind]. destruct (Py.round q) as [e | n]; [discriminate |].
  cbn [rbind]. intros [= <-]. lia.
Qed.

Lemma target_h_px_bounds (half_block : bool) (height_chars : Z) :
  1 <= height_chars ->
  1 <= target_h_px half_block height_chars
  /\ (half_block = true -> Z.even (target_h_px half_block height_chars) = true).
Proof.
  intros H. destruct half_block.
  - rewrite half_block_height. split; [lia |]. intros _.
    rewrite Z.even_mul. reflexivity.
  - cbn. split; [exact H | discriminate].
Qed.

Lemma sharpen_preset (strength : string) :
  let p := dict_get sharpen_params strength params_light in
  p = params_light \/ p = params_medium \/ p = params_strong.
Proof.
  unfold sharpen_params, dict_get.
  destruct (String.eqb "light" strength); [now left |].
  destruct (String.eqb "medium" strength); [right; now left |].
  destruct (String.eqb "strong" strength); [right; now right | now left].
Qed.

Section MainEvents.
Context {NP : NumpyLib} {PF : Platform}.

Lemma emits_resize (nhb : bool) (src : Image) (w h : Z) (method : string) :
  1 <= w <= 200 -> 1 <= h -> (nhb = false -> Z.even h = true) ->
  emits (main_event_ok nhb) (resize_with_optimal_filter src w h method).
Proof.
  intros Hw Hh He.
  assert (HF : forall k, main_event_ok nhb (Ev_call (Call_resize_F w h k)))
    by (intros k; split; [cbn; tauto | exact I]).
  assert (HR : forall k, main_event_ok nhb (Ev_call (Call_resize w h k)))
    by (intros k; split; [cbn; tauto | exact I]).
  assert (HL : forall k, emits (main_event_ok nhb) (linear_light_resize src w h k)).
  { intros k. unfold linear_light_resize.
    repeat (apply emits_bind; [apply emits_lib, HF | intros ? _]).
    apply emits_if; [apply emits_ret | apply emits_lift]. }
  unfold resize_with_optimal_filter.
  repeat apply emits_if; first [apply HL | apply emits_lib, HR].
Qed.

Lemma emits_prepare (a : Args) :
  1 <= width a <= 200 ->
  emits (main_event_ok (negb (half_block a))) (prepare a).
Proof.
  intros Hw. unfold prepare.
  apply emits_bind; [apply emits_lib; now split | intros src _].
  apply emits_bind; [apply emits_lift | intros hc Hhc].
  apply returns_lift, target_height_chars_min in Hhc.
  destruct (target_h_px_bounds (half_block a) hc Hhc) as [Hh He].
  apply emits_bind; [| intros img1 _].
  { apply emits_resize; [exact Hw | exact Hh |].
    intros Hn. apply He. now destruct (half_block a). }
  apply emits_bind; [| intros img2 _].
  { unfold stage_denoise, apply_gentle_denoise.
    destruct (Z.ltb_spec 0 (denoise a)) as [Hd | Hd]; [| apply emits_ret].
    replace (denoise a <=? 0) with false by (symmetry; apply Z.leb_gt; lia).
    apply emits_lib. split; [| exact I]. cbn. lia. }
  apply emits_bind; [| intros img3 _].
  { unfold stage_colour, enhance_color_separation.
    apply emits_if; [| apply emits_ret].
    apply emits_bind; [| intros ? _].
    - apply emits_if; [apply emits_lib; now split | apply emits_ret].
    - apply emits_bind; [| intros ? _; apply emits_ret].
      apply emits_if; [apply emits_lib; now split | apply emits_ret]. }
  apply emits_bind; [| intros img4 _; apply emits_ret].
  unfold stage_sharpen, apply_edge_aware_sharpen.
  repeat apply emits_if; try apply emits_ret.
  apply emits_lib. split; [| exact I]. apply sharpen_preset.
Qed.

Lemma emits_write_output (nhb : bool) (a : Args) (src_w src_h n : Z)
  (lines : list string) :
  PyStr.truthy (output_file a) = true ->
  emits (main_event_ok nhb) (write_output a src_w src_h n lines).
Proof.
  intros Ht. unfold write_output. cbv zeta.
  destruct (output_file a) as [f |] eqn:Hf; [| discriminate Ht].
  rewrite Ht.
  assert (Hfile : forall texts msg,
             emits (main_event_ok nhb)
               (with_open f (write_all f texts) ;;
                print ("Wrote output file: " ++ f ++ msg))).
  { intros texts msg. apply emits_bind; [| intros _ _].
    - apply emits_with_open; [now split | now split |].
      apply emits_write_all. intros s. now split.
    - apply emits_print. split; [exact I |]. right. right.
      apply (prefix_app "Wrote output file: "). }
  destruct (String.eqb _ "verilog"); apply Hfile.
Qed.

Lemma emits_entry_point (a : Args) :
  1 <= width a <= 200 -> PyStr.truthy (output_file a) = true ->
  emits (main_event_ok (negb (half_block a))) (image_to_verilog_display a).
Proof.
  intros Hw Ht. unfold image_to_verilog_display.
  apply emits_if.
  - apply emits_bind; [| intros _ _; apply emits_ret].
    apply emits_print. split; [exact I |]. right. left.
    apply (prefix_app "Error").
  - apply emits_try_except.
    + apply emits_bind; [| intros _ _; apply emits_ret].
      unfold process.
      apply emits_bind; [| intros [[[lines n] sw] sh] _].
      * unfold render.
        apply emits_bind; [apply emits_prepare, Hw | intros [[img sw] sh] _].
        apply emits_bind; [apply emits_lift | intros [lines n] _].
        apply emits_ret.
      * apply emits_write_output, Ht.
    + intros e.
      apply emits_bind; [| intros _ _].
      * apply emits_print. split; [exact I |]. right. left.
        apply (prefix_app "Error").
      * apply emits_bind; [| intros _ _; apply emits_ret].
        intros t. exists [Ev_traceback e]. split; [reflexivity |].
        constructor; [now split | constructor].
Qed.

Lemma default_output_path_truthy (image_path output_format : string) :
  PyStr.truthy (Some (default_output_path image_path output_format)) = true.
Proof.
  unfold default_output_path. cbv zeta.
  set (stem := if String.eqb _ EmptyString then "output" else _).
  assert (Hstem : stem <> EmptyString).
  { unfold stem.
    destruct (String.eqb_spec
                (fst (OsPath.splitext (OsPath.basename image_path)))
                EmptyString) as [E | N]; [discriminate | exact N]. }
  destruct stem as [| c s]; [now elim Hstem | reflexivity].
Qed.

Lemma emits_main_parsed (args : Namespace) :
  emits (main_event_ok (ns_no_half_block args)) (main_parsed args).
Proof.
  unfold main_parsed.
  apply emits_bind.
  - apply emits_if; [| apply emits_ret].
    apply emits_bind; [| intros _ _; apply emits_ret].
    apply emits_print. split; [exact I | now left].
  - intros w Hw.
    assert (Hrange : 1 <= w <= 200).
    { destruct Hw as (t & t' & Hw).
      destruct ((ns_width args <=? 0) || (200 <? ns_width args)) eqn:Hc.
      - unfold bind, print, file_action, ret in Hw.
        destruct (io_error t _); [discriminate Hw |].
        injection Hw as _ <-. lia.
      - unfold ret in Hw. injection Hw as _ <-.
        apply orb_false_elim in Hc. destruct Hc as [H1 H2].
        apply Z.leb_gt in H1. apply Z.ltb_ge in H2. lia. }
    apply emits_bind; [| intros ok _; apply emits_ret].
    match goal with
    | |- emits _ (image_to_verilog_display ?x) =>
        pose proof (emits_entry_point x) as H
    end.
    cbn [width output_file half_block] in H.
    rewrite negb_involutive in H. apply H; [exact Hrange |].
    destruct (PyStr.truthy (ns_output args)) eqn:Ho; [exact Ho |].
    apply default_output_path_truthy.
Qed.

End MainEvents.




(** ** Writing the output file *)

Section Writing.
Context {PF : Platform}.

Lemma write_all_written (path : string) (texts : list string) :
  forall t : list event,
    exists written rest : list string,
      texts = (written ++ rest)%list
      /\ fst (write_all path texts t) = (t ++ map (Ev_write path) written)%list
      /\ (snd (write_all path texts t) = inr tt -> rest = [])
      /\ (forall e, snd (write_all path texts t) = inl e ->
          exists text rest', rest = text :: rest').
Proof.
  induction texts as [| s texts IH]; intros t; cbn [write_all].
  - exists [], []. split; [reflexivity |].
    split; [simpl; now rewrite app_nil_r |].
    split; [reflexivity | discriminate].
  - unfold bind, file_action.
    destruct (io_error t (Ev_write path s)) as [e |].
    + exists [], (s :: texts). split; [reflexivity |].
      split; [simpl; now rewrite app_nil_r |].
      split; [discriminate | eauto].
    + destruct (IH (t ++ [Ev_write path s])%list)
        as (written & rest & Htexts & H & Hall & Hsome).
      exists (s :: written), rest. split; [now rewrite Htexts |].
      split; [rewrite H, <- app_assoc; reflexivity |].
      split; assumption.
Qed.

Lemma with_open_then_report (path : string) (texts : list string)
  (msg : string) (t : list event) :
  let run := (with_open path (write_all path texts) ;; print msg) t in
  (fst run = t /\ exists e, snd run = inl e)
  \/ (exists (written : list string) (text : string) (rest : list string),
         texts = (written ++ text :: rest)%list
         /\ fst run
            = (t ++ Ev_open path :: map (Ev_write path) written
                 ++ [Ev_close path])%list
         /\ exists e, snd run = inl e)
  \/ (fst run
      = (t ++ Ev_open path :: map (Ev_write path) texts
           ++ [Ev_close path])%list
      /\ exists e, snd run = inl e /\ io_error (fst run) (Ev_print msg) = Some e)
  \/ (fst run
      = (t ++ Ev_open path :: map (Ev_write path) texts
           ++ [Ev_close path; Ev_print msg])%list
      /\ snd run = inr tt).
Proof.
  cbv zeta. unfold bind, with_open, file_action.
  destruct (io_error t (Ev_open path)) as [e0 |];
    [left; cbn [fst snd]; eauto |].
  destruct (write_all_written path texts (t ++ [Ev_open path])%list)
    as (written & rest & Htexts & H & Hall & Hsome).
  destruct (write_all path texts (t ++ [Ev_open path])%list) as [t2 [e2 | []]];
    cbn [fst snd] in *.
  - right. left. destruct (Hsome e2 eq_refl) as (text & rest' & ->).
    exists written, text, rest'. split; [exact Htexts |].
    split; [| eauto]. rewrite H, <- !app_assoc. reflexivity.
  - rewrite (Hall eq_refl), app_nil_r in Htexts. subst written.
    assert (Ht2 : (t2 ++ [Ev_close path])%list
                  = (t ++ Ev_open path :: map (Ev_write path) texts
                       ++ [Ev_close path])%list)
      by (rewrite H, <- !app_assoc; reflexivity).
    unfold print, file_action.
    destruct (io_error (t2 ++ [Ev_close path])%list (Ev_print msg))
      as [e |] eqn:Hio; cbn [fst snd].
    + right. right. left. split; [exact Ht2 |].
      exists e. split; [reflexivity | exact Hio].
    + right. right. right. split; [| reflexivity].
      rewrite Ht2, <- !app_assoc. cbn [List.app].
      rewrite <- !app_assoc. reflexivity.
Qed.

End Writing.



(** ** The default output path *)

Lemma substring_0_length (s : string) : String.substring 0 (String.length s) s = s.
Proof. induction s as [| a s IH]; cbn; [reflexivity | now rewrite IH]. Qed.

Lemma count_char_substring (c : ascii) (s : string) (n m : nat) :
  (count_char c (String.substring n m s) <= count_char c s)%nat.
Proof.
  revert n m. induction s as [| a s IH]; intros n m.
  - destruct n, m; cbn; lia.
  - destruct n as [| n].
    + destruct m as [| m]; cbn [String.substring count_char]; [lia |].
      specialize (IH O m). lia.
    + cbn [String.substring count_char]. specialize (IH n m). lia.
Qed.

(** [rfind] returns the last occurrence: nothing after it holds [c]. *)
Lemma rfind_from_last (c : ascii) (s : string) (i : Z) :
  0 <= i ->
  (PyStr.rfind_from c s i = -1 /\ count_char c s = O)
  \/ (i <= PyStr.rfind_from c s i < i + PyStr.len s
      /\ count_char c (PyStr.drop (PyStr.rfind_from c s i - i + 1) s) = O).
Proof.
  revert i. induction s as [| a s IH]; intros i Hi.
  - left. split; reflexivity.
  - cbn [PyStr.rfind_from]. cbv zeta.
    destruct (IH (i + 1) ltac:(lia)) as [[Hr Hc] | [Hr Hc]].
    + rewrite Hr. cbn [Z.leb Z.compare].
      destruct (Ascii.eqb a c) eqn:Hac.
      * right. split; [unfold PyStr.len; cbn [String.length]; lia |].
        unfold PyStr.drop. replace (i - i + 1) with 1 by lia.
        change (Z.to_nat 1) with 1%nat.
        cbn [String.length Nat.sub String.substring].
        rewrite Nat.sub_0_r, substring_0_length. exact Hc.
      * left. split; [reflexivity |].
        cbn [count_char]. rewrite Hac, Hc. reflexivity.
    + replace (0 <=? PyStr.rfind_from c s (i + 1)) with true
        by (symmetry; apply Z.leb_le; lia).
      right. unfold PyStr.len in *. cbn [String.length].
      split; [lia |].
      unfold PyStr.drop in *.
      replace (Z.to_nat (PyStr.rfind_from c s (i + 1) - i + 1))
        with (S (Z.to_nat (PyStr.rfind_from c s (i + 1) - (i + 1) + 1)))
        by lia.
      cbn [String.length Nat.sub String.substring]. exact Hc.
Qed.

Lemma basename_no_separator (p : string) :
  count_char "/" (OsPath.basename p) = O.
Proof.
  unfold OsPath.basename, PyStr.rfind.
  destruct (rfind_from_last "/" p 0 ltac:(lia)) as [[Hr Hc] | [_ Hc]].
  - rewrite Hr. unfold PyStr.drop. cbn [Z.add Z.to_nat].
    rewrite Nat.sub_0_r, substring_0_length. exact Hc.
  - now rewrite Z.sub_0_r in Hc.
Qed.

Lemma splitext_root_count (c : ascii) (p : string) :
  (count_char c (fst (OsPath.splitext p)) <= count_char c p)%nat.
Proof.
  unfold OsPath.splitext, OsPath._splitext. cbv zeta.
  destruct (_ && _); cbn [fst]; [apply count_char_substring | lia].
Qed.

(** X11.  [default_output_path]: the path chosen when [--output] is not
    given is a bare file name.  It holds no directory separator, wherever
    the image lies, so the file is written to the current directory; its
    stem is never empty; and it ends in [.sv] exactly when the requested
    format is [verilog], in [.ans] otherwise. *)
Theorem default_output_path_is_a_file_name (image_path output_format : string) :
  count_char "/" (default_output_path image_path output_format) = O
  /\ exists stem : string,
       stem <> EmptyString
       /\ default_output_path image_path output_format
          = stem ++ (if String.eqb output_format "verilog" then ".sv" else ".ans").
Proof.
  unfold default_output_path. cbv zeta.
  set (root := fst (OsPath.splitext (OsPath.basename image_path))).
  assert (Hroot : count_char "/" root = O).
  { pose proof (splitext_root_count "/" (OsPath.basename image_path)) as H.
    rewrite basename_no_separator in H. fold root in H. lia. }
  split.
  - rewrite count_char_app.
    destruct (String.eqb root EmptyString);
      destruct (String.eqb output_format "verilog");
      rewrite ?Hroot; reflexivity.
  - destruct (String.eqb root EmptyString) eqn:He.
    + exists "output". split; [discriminate | reflexivity].
    + exists root. split; [| reflexivity].
      intros ->. discriminate He.
Qed.

Lemma rfind_from_app_found (c : ascii) (a b : string) (i : Z) :
  0 <= PyStr.rfind_from c b (i + PyStr.len a) ->
  PyStr.rfind_from c (a ++ b) i = PyStr.rfind_from c b (i + PyStr.len a).
Proof.
  revert i. induction a as [| x a IH]; intros i H.
  - unfold PyStr.len in *. cbn [String.length Z.of_nat] in *.
    rewrite Z.add_0_r in *. reflexivity.
  - cbn [append PyStr.rfind_from]. cbv zeta.
    replace (i + PyStr.len (String x a)) with (i + 1 + PyStr.len a) in *
      by (unfold PyStr.len; cbn [String.length]; lia).
    rewrite (IH (i + 1) H).
    replace (0 <=? _) with true by (symmetry; now apply Z.leb_le).
    reflexivity.
Qed.

Lemma drop_app_length (a b : string) : PyStr.drop (PyStr.len a) (a ++ b) = b.
Proof.
  unfold PyStr.drop, PyStr.len. rewrite Nat2Z.id.
  induction a as [| x a IH]; cbn [append String.length Nat.sub String.substring].
  - rewrite Nat.sub_0_r. apply substring_0_length.
  - exact IH.
Qed.

(** The extension of [stem ++ ".ans"]: [.ans], or nothing when the stem is
    made of dots. *)
Lemma extension_ans (stem : string) :
  extension (stem ++ ".ans") = ".ans" \/ extension (stem ++ ".ans") = EmptyString.
Proof.
  unfold extension, OsPath.splitext, OsPath._splitext. cbv zeta.
  assert (Hdot : PyStr.rfind "." (stem ++ ".ans") = PyStr.len stem).
  { unfold PyStr.rfind.
    assert (H : PyStr.rfind_from "." ".ans" (0 + PyStr.len stem)
                = 0 + PyStr.len stem) by reflexivity.
    rewrite rfind_from_app_found; rewrite H; unfold PyStr.len; lia. }
  rewrite Hdot. destruct (_ && _); cbn [snd].
  - left. apply drop_app_length.
  - right. reflexivity.
Qed.

Lemma default_output_path_auto (image_path : string) :
  exists stem : string, default_output_path image_path "auto" = stem ++ ".ans".
Proof. unfold default_output_path. cbv zeta. eexists. reflexivity. Qed.

(** X12.  [resolve_output_format] after [default_output_path], as [main]
    composes them when [--output] is not given: the format is [ansi] when
    it was left to [auto], and the requested one otherwise.  The default
    path never makes [auto] resolve to [verilog]. *)
Theorem default_path_resolves_to_ansi (image_path output_format : string) :
  resolve_output_format output_format
    (Some (default_output_path image_path output_format))
  = if String.eqb output_format "auto" then "ansi" else output_format.
Proof.
  destruct (String.eqb output_format "auto") eqn:Hauto.
  - apply String.eqb_eq in Hauto. subst output_format.
    rewrite resolve_auto_unfold.
    destruct (default_output_path_auto image_path) as (stem & ->).
    destruct (extension_ans stem) as [-> | ->];
      now destruct (PyStr.truthy _).
  - unfold resolve_output_format. now rewrite Hauto.
Qed.

(** ** Printing to standard output *)

Lemma print_all_trace {PF : Platform} (lines : list string) (t : list event) :
  (forall (t0 : list event) (line : string),
      In line lines -> io_error t0 (Ev_print line) = None) ->
  print_all lines t = ((t ++ map Ev_print lines)%list, inr tt).
Proof.
  revert t. induction lines as [| s lines IH]; intros t H; cbn [print_all map].
  - unfold ret. now rewrite app_nil_r.
  - unfold bind, print, file_action. rewrite (H t s (or_introl eq_refl)).
    rewrite IH by (intros t0 line Hin; apply H; now right).
    rewrite <- app_assoc. reflexivity.
Qed.

(** X13.  [image_to_verilog_display] without an output file ([None] or the
    empty string, which [main] never passes but a caller of the function
    may): once the lines are rendered, and as long as standard output accepts
    them, each is printed once, in order, as it is for the ANSI format and as
    a [$display] statement for Verilog, with no header.  No file is touched
    and the result is [True]. *)
Theorem stdout_mode_prints_each_line {NP : NumpyLib} {PF : Platform}
  (a : Args) (t t' : list event) (lines : list string) (n src_w src_h : Z) :
  os_path_exists (image_path a) = true ->
  PyStr.truthy (output_file a) = false ->
  render a t = (t', inr (lines, n, src_w, src_h)) ->
  let printed :=
    if String.eqb (resolve_output_format (output_format a) (output_file a))
                  "verilog"
    then map display_statement lines
    else lines in
  (forall (t0 : list event) (line : string),
      In line printed -> io_error t0 (Ev_print line) = None) ->
  image_to_verilog_display a t = ((t' ++ map Ev_print printed)%list, inr true).
Proof.
  intros Hex Hout Hr printed Hstdout.
  unfold image_to_verilog_display. rewrite Hex. cbn [negb].
  unfold try_except, process, bind at 1. unfold bind at 1. rewrite Hr.
  unfold write_output. cbv zeta. unfold printed in *.
  destruct (String.eqb _ "verilog");
    (destruct (output_file a) as [f |];
     [rewrite Hout |]; rewrite (print_all_trace _ _ Hstdout); reflexivity).
Qed.

(** The 2x2 red image asked for as Verilog on standard output. *)
Lemma stdout_mode_prints_each_line_witness :
  @image_to_verilog_display RefNumpy DemoPlatform
    (mkArgs "red.png" 2 None "display_image" true true FULL_BLOCK true
            "verilog" "bicubic" "none" 0 F64.one F64.one (F64.lit 2 1)) []
  = (List.app
       [Ev_call (Call_open "red.png"); Ev_call (Call_resize 2 2 BICUBIC)]
       (map Ev_print
          (if String.eqb (resolve_output_format "verilog" None) "verilog"
           then map display_statement [red_cell ++ red_cell]
           else [red_cell ++ red_cell])),
     inr true).
Proof.
  apply (@stdout_mode_prints_each_line RefNumpy DemoPlatform
           (mkArgs "red.png" 2 None "display_image" true true FULL_BLOCK true
                   "verilog" "bicubic" "none" 0 F64.one F64.one (F64.lit 2 1))
           [] _ [red_cell ++ red_cell] 1 2 2).
  - reflexivity.
  - reflexivity.
  - vm_compute. reflexivity.
  - intros t0 line _. reflexivity.
Defined.

(** ** The resolved format *)

(** X14.  [resolve_output_format] never answers [auto], whatever it is
    given, and resolving its own answer again changes nothing: the format
    written into the header and the report is a settled one. *)
Theorem resolved_format_is_settled (output_format : string)
  (output_file : option string) :
  (output_format <> "auto" ->
   resolve_output_format output_format output_file = output_format)
  /\ resolve_output_format output_format output_file <> "auto"
  /\ resolve_output_format (resolve_output_format output_format output_file)
       output_file
     = resolve_output_format output_format output_file.
Proof.
  destruct (String.eqb output_format "auto") eqn:Hauto.
  - apply String.eqb_eq in Hauto. subst output_format.
    split; [intros H; now elim H |].
    rewrite resolve_auto_unfold.
    destruct output_file as [f |]; [| split; [discriminate | reflexivity]].
    destruct (_ && _); split; first [discriminate | reflexivity].
  - assert (H : resolve_output_format output_format output_file = output_format)
      by (unfold resolve_output_format; now rewrite Hauto).
    rewrite !H. split; [reflexivity |]. split; [| reflexivity].
    intros ->. discriminate Hauto.
Qed.

(** ** The order of the library calls *)

Lemma StronglySorted_app {A : Type} (R : A -> A -> Prop) (l1 l2 : list A) :
  StronglySorted R l1 -> StronglySorted R l2 ->
  (forall x y, In x l1 -> In y l2 -> R x y) ->
  StronglySorted R (l1 ++ l2).
Proof.
  intros H1 H2. induction H1 as [| x l1 H1 IH Hx]; intros H; cbn [List.app].
  - exact H2.
  - constructor.
    + apply IH. intros a b Ha Hb. apply H; [now right | exact Hb].
    + apply Forall_app. split; [exact Hx |].
      apply Forall_forall. intros y Hy. apply H; [now left | exact Hy].
Qed.

Section StageOrder.
Context {A B : Type}.

Lemma order_ret (lo hi : Z) (a : A) : in_stage_order lo hi (ret a).
Proof.
  intros t. exists []. cbn. rewrite app_nil_r.
  split; [reflexivity |]. split; constructor.
Qed.

Lemma order_lift (lo hi : Z) (r : result A) : in_stage_order lo hi (lift r).
Proof.
  intros t. exists []. cbn. rewrite app_nil_r.
  split; [reflexivity |]. split; constructor.
Qed.

Lemma order_lib (lo hi : Z) (c : call) (r : result A) :
  lo <= stage_rank c <= hi -> in_stage_order lo hi (lib c r).
Proof.
  intros H t. exists [c]. split; [reflexivity |].
  split; repeat constructor; lia.
Qed.

Lemma order_if (lo hi : Z) (b : bool) (m1 m2 : M A) :
  in_stage_order lo hi m1 -> in_stage_order lo hi m2 ->
  in_stage_order lo hi (if b then m1 else m2).
Proof. now destruct b. Qed.

Lemma order_bind (lo mid mid' hi : Z) (m : M A) (k : A -> M B) :
  in_stage_order lo mid m -> (forall a, in_stage_order mid' hi (k a)) ->
  lo <= mid' -> mid <= hi -> mid < mid' \/ (lo = 1 /\ hi = 1) ->
  in_stage_order lo hi (bind m k).
Proof.
  intros Hm Hk Hlo Hhi Hsep t. unfold bind.
  destruct (Hm t) as (c1 & H1 & S1 & F1).
  destruct (m t) as [t1 [e | a]]; cbn [fst] in H1.
  - exists c1. split; [exact H1 |]. split; [exact S1 |].
    eapply Forall_impl; [| exact F1]. cbn. intros; lia.
  - destruct (Hk a t1) as (c2 & H2 & S2 & F2).
    exists (c1 ++ c2)%list. split; [| split].
    + rewrite H2, H1, map_app, app_assoc. reflexivity.
    + apply StronglySorted_app; [exact S1 | exact S2 |].
      intros x y Hx Hy.
      pose proof (proj1 (Forall_forall _ _) F1 x Hx) as Bx.
      pose proof (proj1 (Forall_forall _ _) F2 y Hy) as By.
      cbn in Bx, By. unfold stage_before. lia.
    + apply Forall_app. split.
      * eapply Forall_impl; [| exact F1]. cbn. intros; lia.
      * eapply Forall_impl; [| exact F2]. cbn. intros; lia.
Qed.

End StageOrder.

Section PipelineOrder.
Context {NP : NumpyLib} {PF : Platform}.

Lemma order_resize (src : Image) (w h : Z) (method : string) :
  in_stage_order 1 1 (resize_with_optimal_filter src w h method).
Proof.
  assert (HL : forall k, in_stage_order 1 1 (linear_light_resize src w h k)).
  { intros k. unfold linear_light_resize.
    repeat (apply (order_bind 1 1 1 1);
            [apply order_lib; cbn; lia | intros ? | lia | lia | right; lia]).
    apply order_if; [apply order_ret | apply order_lift]. }
  unfold resize_with_optimal_filter.
  repeat apply order_if; first [apply HL | apply order_lib; cbn; lia].
Qed.

Lemma order_filters (a : Args) (img : Image) (src_w src_h : Z) :
  in_stage_order 2 5
    (img <- stage_denoise img (denoise a) ;;
     img <- stage_colour img (saturation a) (contrast a) ;;
     img <- stage_sharpen img (sharpen a) ;;
     ret (img, src_w, src_h)).
Proof.
  apply (order_bind 2 2 3 5); [| intros img2 | lia | lia | left; lia].
  { unfold stage_denoise, apply_gentle_denoise.
    repeat apply order_if;
      first [apply order_ret | apply order_lib; cbn; lia]. }
  apply (order_bind 3 4 5 5); [| intros img3 | lia | lia | left; lia].
  { unfold stage_colour, enhance_color_separation.
    apply order_if; [| apply order_ret].
    apply (order_bind 3 3 4 4); [| intros ? | lia | lia | left; lia].
    - apply order_if; [apply order_lib; cbn; lia | apply order_ret].
    - apply (order_bind 4 4 5 4);
        [| intros ?; apply order_ret | lia | lia | left; lia].
      apply order_if; [apply order_lib; cbn; lia | apply order_ret]. }
  apply (order_bind 5 5 6 5);
    [| intros ?; apply order_ret | lia | lia | left; lia].
  unfold stage_sharpen, apply_edge_aware_sharpen.
  repeat apply order_if;
    first [apply order_ret | apply order_lib; cbn; lia].
Qed.

End PipelineOrder.

(** X15.  Steps 1 to 4 of [image_to_verilog_display]: the library is
    called in one fixed order, whatever the options and wherever a call
    fails.  The image is opened first and once; then come the resize
    requests; then at most one median filter, one colour enhancement, one
    contrast enhancement and one unsharp mask, in this order. *)
Theorem pipeline_calls_in_stage_order {NP : NumpyLib} {PF : Platform}
  (a : Args) (t : list event) :
  exists rest : list call,
    fst (prepare a t)
    = (t ++ map Ev_call (Call_open (image_path a) :: rest))%list
    /\ StronglySorted stage_before (Call_open (image_path a) :: rest)
    /\ Forall (fun c => 1 <= stage_rank c <= 5) rest.
Proof.
  unfold prepare, bind at 1, lib.
  destruct (Image_open (image_path a)) as [e | src].
  - exists []. cbn [fst map]. split; [reflexivity |].
    split; repeat constructor.
  - match goal with
    | |- context [bind ?m ?k (t ++ _)%list] =>
        assert (H : in_stage_order 1 5 (bind m k))
    end.
    { apply (order_bind 1 0 1 5);
        [apply order_lift | intros hc | lia | lia | left; lia].
      apply (order_bind 1 1 2 5);
        [apply order_resize | intros img1 | lia | lia | left; lia].
      apply order_filters. }
    destruct (H (t ++ [Ev_call (Call_open (image_path a))])%list)
      as (rest & Hrest & S & F).
    exists rest. split; [| split].
    + rewrite Hrest, <- app_assoc. reflexivity.
    + constructor; [exact S |].
      eapply Forall_impl; [| exact F]. cbn. intros c Hc. left. cbn. lia.
    + exact F.
Qed.

(** ** The exit status *)

Section ExitStatus.
Context {NP : NumpyLib} {PF : Platform}.

Lemma quiet_calls (calls : list call) : Forall quiet (map Ev_call calls).
Proof. induction calls; constructor; [exact I | assumption]. Qed.

Lemma quiet_writes (path : string) (texts : list string) :
  Forall quiet (map (Ev_write path) texts).
Proof. induction texts; constructor; [exact I | assumption]. Qed.

(** The [try] block with an output file: it reports no error itself, and
    when it completes the last thing it did was to print the report. *)
(** The [try] block with an output file: it reports no error itself, and
    when it completes the last thing it did was to print the report. *)
Lemma process_quiet (a : Args) (t : list event) :
  PyStr.truthy (output_file a) = true ->
  exists evs : list event,
    fst (process a t) = (t ++ evs)%list
    /\ Forall quiet evs
    /\ (snd (process a t) = inr tt ->
        exists (before : list event) (text : string),
          evs = (before ++ [Ev_print text])%list
          /\ String.prefix "Wrote output file: " text = true).
Proof.
  intros Ht. unfold process, bind.
  destruct (only_calls_render a t) as (calls & Hcalls).
  destruct (render a t) as [t1 [e | [[[lines n] sw] sh]]]; cbn [fst snd] in *.
  - exists (map Ev_call calls). split; [exact Hcalls |].
    split; [apply quiet_calls | discriminate].
  - subst t1. unfold write_output. cbv zeta.
    destruct (output_file a) as [f |]; [| discriminate Ht].
    rewrite Ht.
    destruct (String.eqb _ "verilog");
      match goal with
      | |- context [with_open f (write_all f ?texts) ;; print ?msg] =>
          destruct (with_open_then_report f texts msg
                      (t ++ map Ev_call calls)%list)
            as [[H1 [e He]]
               | [(written & text & rest & _ & H1 & e & He)
                 | [[H1 (e & He & _)] | [H1 H2]]]];
            rewrite H1, ?He;
            [exists (map Ev_call calls)
            |exists (List.app (map Ev_call calls)
                       (Ev_open f :: List.app (map (Ev_write f) written)
                                       [Ev_close f]))
            |exists (List.app (map Ev_call calls)
                       (Ev_open f :: List.app (map (Ev_write f) texts)
                                       [Ev_close f]))
            |exists (List.app
                       (List.app (map Ev_call calls)
                          (Ev_open f :: List.app (map (Ev_write f) texts)
                                          [Ev_close f]))
                       [Ev_print msg])]
      end.
    all: split; [rewrite <- ?app_assoc; cbn [List.app];
                 rewrite <- ?app_assoc; reflexivity |].
    all: split; [| first [discriminate
                         | intros _; eexists _, _;
                           split; [reflexivity
                                  | apply (prefix_app "Wrote output file: ")]]].
    all: repeat first
           [ apply quiet_calls | apply quiet_writes
           | apply Forall_app; split
           | apply Forall_cons; [first [exact I | reflexivity] |]
           | apply Forall_nil ].
Qed.

(** The three ways the entry point ends when it is given an output file. *)
Lemma entry_point_outcome (a : Args) (t : list event) :
  PyStr.truthy (output_file a) = true ->
  exists (evs : list event) (r : result bool),
    image_to_verilog_display a t = ((t ++ evs)%list, r)
    /\ ((r = inr true
         /\ Forall quiet evs
         /\ exists (before : list event) (text : string),
              evs = (before ++ [Ev_print text])%list
              /\ String.prefix "Wrote output file: " text = true)
        \/ (r = inr false /\ Exists error_report evs)
        \/ (exists (e : exn) (text : string),
               r = inl e
               /\ io_error (t ++ evs)%list (Ev_print text) = Some e)).
Proof.
  intros Ht. unfold image_to_verilog_display.
  destruct (os_path_exists (image_path a)); cbn [negb].
  - unfold try_except, bind at 1.
    destruct (process_quiet a t Ht) as (evs & H & Hq & Hlast).
    destruct (process a t) as [t2 [e | []]]; cbn [fst snd] in *; subst t2.
    + unfold bind, print, file_action.
      destruct (io_error (t ++ evs)%list _) as [e' |] eqn:Hio.
      * exists evs, (inl e'). split; [reflexivity |]. right. right. eauto.
      * eexists (List.app evs [Ev_print _; Ev_traceback e]), (inr false).
        split; [unfold ret; rewrite <- !app_assoc; reflexivity |].
        right. left. split; [reflexivity |].
        apply Exists_app. right. apply Exists_cons_hd. reflexivity.
    + exists evs, (inr true). split; [reflexivity |]. left.
      split; [reflexivity |]. split; [exact Hq | apply Hlast; reflexivity].
  - unfold bind, print, file_action.
    destruct (io_error t _) as [e' |] eqn:Hio.
    + exists [], (inl e'). rewrite app_nil_r. split; [reflexivity |].
      right. right. eauto.
    + eexists [Ev_print _], (inr false). split; [reflexivity |].
      right. left. split; [reflexivity |].
      apply Exists_cons_hd. reflexivity.
Qed.

End ExitStatus.


